(** * ipfs-json-editor: the IPNS and IPFS services

    A shallow embedding of [src/services/ipnsUpdater.ts] and
    [src/services/ipfsUploader.ts].

    The two modules are asynchronous TypeScript: every function awaits
    calls into the platform ([fetch], [console], [Date.now]) and into
    imported packages (Helia, libp2p keys, multiformats, ipns).  Their
    control flow is sequential, so an [async] function is embedded as a
    computation in a state-and-exception monad [M]:

    - the state carries the outside [world] (network, clock, Helia
      nodes), which only the platform oracles read and change, and a
      [trace] listing, in order, every call the module makes to
      something it imports;
    - a completion is [Normal v] (the promise resolves to [v]) or
      [Throw e] (it rejects with [e]); [try_catch] and [try_finally]
      are the JavaScript statements of the same names.

    What the imported packages and the platform compute is not part of
    this repository: it is the [Platform] class, over which every
    definition and theorem is generic. *)

From Stdlib Require Import String Ascii List ZArith Lia Bool.
From Stdlib Require Import Strings.Byte.
From Stdlib Require Import DecimalString.
Import ListNotations.
Open Scope string_scope.
Open Scope list_scope.

(* ================================================================= *)
(** ** JavaScript values *)

(** A value that a [throw] carries.  The catch blocks of the services
    only ask whether it is an [Error] and, if so, read its message. *)
Inductive thrown : Type :=
| ErrorObj (message : string)
| NonError (shown : string).

(** [error instanceof Error ? error.message : fallback] *)
Definition message_or (fallback : string) (error : thrown) : string :=
  match error with
  | ErrorObj m => m
  | NonError _ => fallback
  end.

(** The result of [JSON.parse] / [response.json()].  Numbers are kept as
    integers: the services only test them for truthiness and print them
    inside template literals. *)
#[warnings="-register-all"]
Inductive json : Type :=
| JNull
| JBool (b : bool)
| JNumber (n : Z)
| JString (s : string)
| JArray (items : list json)
| JObject (members : list (string * json)).

(** A JavaScript expression value: [None] is [undefined]. *)
Definition jsval : Type := option json.

Definition bytes : Type := list byte.

(** Decimal rendering of a non-negative integer inside a template
    literal, as for [`${response.status}`]. *)
Definition string_of_nat (n : nat) : string :=
  NilZero.string_of_uint (Nat.to_uint n).

(** ECMAScript truthiness of a string: every string but the empty one. *)
Definition truthy_string (s : string) : bool :=
  match s with
  | EmptyString => false
  | String _ _ => true
  end.

(** Truthiness of an optional string property ([undefined] is falsy). *)
Definition truthy_opt_string (o : option string) : bool :=
  match o with
  | Some s => truthy_string s
  | None => false
  end.

(** [String.prototype.trim] on the code units a header value can hold
    (a byte string, one code unit per byte): the white space and line
    terminators of ECMAScript below 256 are TAB, LF, VT, FF, CR, SP and
    NBSP. *)
Definition is_js_whitespace (c : ascii) : bool :=
  let n := nat_of_ascii c in
  (Nat.leb 9 n && Nat.leb n 13) || Nat.eqb n 32 || Nat.eqb n 160.

Fixpoint trimStart (s : string) : string :=
  match s with
  | EmptyString => EmptyString
  | String c rest => if is_js_whitespace c then trimStart rest else s
  end.

Fixpoint string_rev (s : string) : string :=
  match s with
  | EmptyString => EmptyString
  | String c rest => (string_rev rest ++ String c EmptyString)%string
  end.

Definition trimEnd (s : string) : string :=
  string_rev (trimStart (string_rev s)).

Definition trim (s : string) : string := trimEnd (trimStart s).

(* ================================================================= *)
(** ** Keys, requests and responses *)

(** [KeyType] of @libp2p/interface. *)
Inductive KeyType : Type := RSA | Ed25519 | secp256k1 | ECDSA.

Definition is_Ed25519 (t : KeyType) : bool :=
  match t with
  | Ed25519 => true
  | _ => false
  end.

(** A public key as its protobuf envelope holds it: the key type and
    the key data.  These are the public key bytes that the peer id is
    computed from. *)
Record PublicKey : Type := mkPublicKey {
  pub_type : KeyType;
  pub_raw : bytes
}.

(** A decoded libp2p private key: its public half and the secret
    bytes.  [keypair.type] is the type of the pair, the same for both
    halves. *)
Record PrivateKey : Type := mkPrivateKey {
  publicKey : PublicKey;
  key_raw : bytes
}.

Definition key_type (keypair : PrivateKey) : KeyType :=
  pub_type (publicKey keypair).

(** The multipart body built by [uploadConfigToIPFS]. *)
Record FormData : Type := mkFormData {
  fd_Body : string;           (* the Blob's text *)
  fd_Body_type : string;      (* the Blob's type *)
  fd_Body_filename : string;
  fd_Key : string;
  fd_ContentType : string
}.

Record Request : Type := mkRequest {
  req_url : string;
  req_method : string;
  req_headers : list (string * string);
  req_body : option FormData
}.

(** What the services read of a [Response]. *)
Record Response : Type := mkResponse {
  ok : bool;
  status : nat;
  headers_get : string -> option string;   (* response.headers.get(name) *)
  text : thrown + string;                  (* await response.text() *)
  body_json : thrown + json                (* await response.json() *)
}.

Inductive console_level : Type := log_level | warn_level | error_level.

Inductive console_arg : Type :=
| arg_string (s : string)
| arg_thrown (e : thrown)
| arg_json (j : json).

(* ================================================================= *)
(** ** Result records of ipnsUpdater.ts *)

Record IPNSUpdateResult : Type := mkIPNSUpdateResult {
  upd_success : bool;
  upd_ipnsName : option string;
  upd_error : option string
}.

Record IPNSResolveResult : Type := mkIPNSResolveResult {
  success : bool;
  ipfsHash : option string;
  ipnsName : option string;
  error : option string
}.

Record EnvironmentConfig : Type := mkEnvironmentConfig {
  ipnsPublicKey : string;
  ipnsPrivateKey : option string
}.

(** The structural type of what the [uploadToIPFS] callback of
    [uploadAndUpdateIPNS] resolves to. *)
Record IpfsResult : Type := mkIpfsResult {
  ipfs_success : bool;
  ipfs_ipfsHash : option string;
  ipfs_error : option string
}.

(** Return value of [uploadAndUpdateIPNS]. *)
Record UploadAndUpdate : Type := mkUploadAndUpdate {
  ipfsResult : IpfsResult;
  ipnsResult : option IPNSUpdateResult
}.

(** Constants for IPNS record creation. *)
Definition DEFAULT_TTL_MS : Z := 60 * 1000.
Definition DEFAULT_LIFETIME_MS : Z := 365 * 24 * 60 * 60 * 1000.

(* ================================================================= *)
(** ** The platform and the imported packages *)

(** The types that belong to the outside: [World] is everything the
    asynchronous calls can read and change (network, clock, Helia
    nodes); [CID], [IPNSRecord] and [Helia] are the object types of
    multiformats, ipns and @helia/http. *)
Record Objects : Type := mkObjects {
  World : Type;
  CID : Type;
  IPNSRecord : Type;
  Helia : Type
}.

(** The oracles.  Those that take the world are the asynchronous or
    clock-reading calls; the others are pure package functions, some of
    which may throw. *)
Class Platform (O : Objects) : Type := {
  fetch_oracle : Request -> World O -> (thrown + Response) * World O;
  Date_now_oracle : World O -> Z * World O;
  createHeliaHTTP_oracle : World O -> (thrown + Helia O) * World O;
  routing_put_oracle :
    Helia O -> bytes -> bytes -> World O -> (thrown + unit) * World O;
  stop_oracle : Helia O -> World O -> (thrown + unit) * World O;
  createIPNSRecord_oracle :
    PrivateKey -> CID O -> Z -> Z -> Z -> World O ->
    (thrown + IPNSRecord O) * World O;
  uint8ArrayFromString_fn : string -> string -> thrown + bytes;
  privateKeyFromProtobuf_fn : bytes -> thrown + PrivateKey;
  (** [peerIdFromPublicKey(k).toCID().toString(base36)] *)
  peerId_base36_fn : PublicKey -> string;
  CID_parse_fn : string -> thrown + CID O;
  marshalIPNSRecord_fn : IPNSRecord O -> thrown + bytes;
  toMultihash_fn : PublicKey -> bytes;
  multihashToIPNSRoutingKey_fn : bytes -> bytes;
  (** [JSON.stringify(value, null, indent)] *)
  JSON_stringify_fn : json -> nat -> string;
  (** ECMAScript [ToString], as a template literal applies it *)
  ToString_fn : jsval -> string
}.

(** One entry per call to something imported, with what the call
    observed where a later statement needs it. *)
Inductive event (O : Objects) : Type :=
| fetch_ (req : Request)
| console_ (level : console_level) (args : list console_arg)
| Date_now_ (now : Z)
| uint8ArrayFromString_ (s : string) (encoding : string)
| privateKeyFromProtobuf_ (b : bytes)
| peerIdFromPrivateKey_ (k : PrivateKey)
| CID_parse_ (s : string)
| createHeliaHTTP_ (outcome : thrown + Helia O)
| createIPNSRecord_ (k : PrivateKey) (cid : CID O) (sequenceNumber : Z)
    (lifetime : Z) (ttlNs : Z) (outcome : thrown + IPNSRecord O)
| marshalIPNSRecord_ (r : IPNSRecord O)
| toMultihash_ (k : PublicKey)
| multihashToIPNSRoutingKey_ (mh : bytes)
| routing_put_ (h : Helia O) (routingKey : bytes) (marshaledRecord : bytes)
| stop_ (h : Helia O).

Arguments fetch_ {O} req.
Arguments console_ {O} level args.
Arguments Date_now_ {O} now.
Arguments uint8ArrayFromString_ {O} s encoding.
Arguments privateKeyFromProtobuf_ {O} b.
Arguments peerIdFromPrivateKey_ {O} k.
Arguments CID_parse_ {O} s.
Arguments createHeliaHTTP_ {O} outcome.
Arguments createIPNSRecord_ {O} k cid sequenceNumber lifetime ttlNs outcome.
Arguments marshalIPNSRecord_ {O} r.
Arguments toMultihash_ {O} k.
Arguments multihashToIPNSRoutingKey_ {O} mh.
Arguments routing_put_ {O} h routingKey marshaledRecord.
Arguments stop_ {O} h.

Record state (O : Objects) : Type := mkState {
  world : World O;
  trace : list (event O)
}.

Arguments mkState {O} world trace.
Arguments world {O} s.
Arguments trace {O} s.

Inductive completion (A : Type) : Type :=
| Normal (a : A)
| Throw (e : thrown).

Arguments Normal {A} a.
Arguments Throw {A} e.

(** An [async] function body: from the state at the call to its
    completion and the state when it settles. *)
Definition M (O : Objects) (A : Type) : Type :=
  state O -> completion A * state O.

Section Monad.

Context {O : Objects}.

Definition ret {A} (a : A) : M O A := fun s => (Normal a, s).

Definition throw {A} (e : thrown) : M O A := fun s => (Throw e, s).

Definition bind {A B} (m : M O A) (k : A -> M O B) : M O B :=
  fun s =>
    match m s with
    | (Normal a, s') => k a s'
    | (Throw e, s') => (Throw e, s')
    end.

(** [try { m } catch (error) { handler error }] *)
Definition try_catch {A} (m : M O A) (handler : thrown -> M O A) : M O A :=
  fun s =>
    match m s with
    | (Normal a, s') => (Normal a, s')
    | (Throw e, s') => handler e s'
    end.

(** [try { m } finally { cleanup }]: the cleanup runs on both
    completions; if it throws, its exception wins. *)
Definition try_finally {A} (m : M O A) (cleanup : M O unit) : M O A :=
  fun s =>
    match m s with
    | (c, s') =>
        match cleanup s' with
        | (Normal _, s'') => (c, s'')
        | (Throw e, s'') => (Throw e, s'')
        end
    end.

Definition of_sum {A} (r : thrown + A) : completion A :=
  match r with
  | inl e => Throw e
  | inr a => Normal a
  end.

Definition emit (ev : event O) (s : state O) : state O :=
  mkState (world s) (trace s ++ [ev]).

(** A call to a pure package function: logged, world untouched. *)
Definition call_pure {A} (ev : event O) (r : thrown + A) : M O A :=
  fun s => (of_sum r, emit ev s).

(** A call to a world oracle whose log entry does not depend on the
    outcome. *)
Definition call_world {A} (ev : event O)
    (oracle : World O -> (thrown + A) * World O) : M O A :=
  fun s =>
    match oracle (world s) with
    | (r, w') => (of_sum r, mkState w' (trace s ++ [ev]))
    end.

(** A call to a world oracle whose log entry records the outcome. *)
Definition call_observed {A} (ev : (thrown + A) -> event O)
    (oracle : World O -> (thrown + A) * World O) : M O A :=
  fun s =>
    match oracle (world s) with
    | (r, w') => (of_sum r, mkState w' (trace s ++ [ev r]))
    end.

(** JavaScript's [for (const x of xs) { body x }] followed by [after],
    where the body either executes [return r] ([Some r]) or reaches
    [continue] or its end ([None]). *)
Fixpoint for_of {A R} (xs : list A) (body : A -> M O (option R))
    (after : M O R) : M O R :=
  match xs with
  | [] => after
  | x :: rest =>
      bind (body x) (fun r =>
        match r with
        | Some v => ret v
        | None => for_of rest body after
        end)
  end.

End Monad.

Declare Scope js_scope.
Delimit Scope js_scope with js.
Notation "x <- m ;; k" := (bind m (fun x => k))
  (at level 61, m at next level, right associativity) : js_scope.
Notation "m ;; k" := (bind m (fun _ => k))
  (at level 61, right associativity) : js_scope.
Open Scope js_scope.

(* ================================================================= *)
(** ** Calls into the platform and the imported packages *)

Section Calls.

Context {O : Objects} {P : Platform O}.

Definition fetch (req : Request) : M O Response :=
  call_world (fetch_ req) (fetch_oracle req).

(** [console.log], [console.warn], [console.error]: never throw. *)
Definition console (level : console_level) (args : list console_arg)
    : M O unit :=
  fun s => (Normal tt, emit (console_ level args) s).

Definition Date_now : M O Z :=
  fun s =>
    match Date_now_oracle (world s) with
    | (now, w') => (Normal now, mkState w' (trace s ++ [Date_now_ now]))
    end.

Definition uint8ArrayFromString (s encoding : string) : M O bytes :=
  call_pure (uint8ArrayFromString_ s encoding)
            (uint8ArrayFromString_fn s encoding).

Definition privateKeyFromProtobuf (b : bytes) : M O PrivateKey :=
  call_pure (privateKeyFromProtobuf_ b) (privateKeyFromProtobuf_fn b).

(** [peerIdFromPrivateKey(privateKey).toCID().toString(base36)]:
    @libp2p/peer-id builds the peer id from [privateKey.publicKey]. *)
Definition peerIdFromPrivateKey_toCID_toString (privateKey : PrivateKey)
    : M O string :=
  call_pure (peerIdFromPrivateKey_ privateKey)
            (inr (peerId_base36_fn (publicKey privateKey))).

Definition CID_parse (s : string) : M O (CID O) :=
  call_pure (CID_parse_ s) (CID_parse_fn s).

Definition createHeliaHTTP : M O (Helia O) :=
  call_observed createHeliaHTTP_ createHeliaHTTP_oracle.

Definition createIPNSRecord (k : PrivateKey) (cid : CID O)
    (sequenceNumber lifetime ttlNs : Z) : M O (IPNSRecord O) :=
  call_observed (createIPNSRecord_ k cid sequenceNumber lifetime ttlNs)
                (createIPNSRecord_oracle k cid sequenceNumber lifetime ttlNs).

Definition marshalIPNSRecord (r : IPNSRecord O) : M O bytes :=
  call_pure (marshalIPNSRecord_ r) (marshalIPNSRecord_fn r).

Definition toMultihash (k : PublicKey) : M O bytes :=
  call_pure (toMultihash_ k) (inr (toMultihash_fn k)).

Definition multihashToIPNSRoutingKey (mh : bytes) : M O bytes :=
  call_pure (multihashToIPNSRoutingKey_ mh)
            (inr (multihashToIPNSRoutingKey_fn mh)).

(** [helia.routing.put(routingKey, marshaledRecord)] *)
Definition routing_put (h : Helia O) (routingKey marshaledRecord : bytes)
    : M O unit :=
  call_world (routing_put_ h routingKey marshaledRecord)
             (routing_put_oracle h routingKey marshaledRecord).

(** [helia.stop()] *)
Definition stop (h : Helia O) : M O unit :=
  call_world (stop_ h) (stop_oracle h).

(** A [let] variable assigned by the first statement of a [try] block
    and read by its [finally]: [attempt] runs the assignment's right-hand
    side and keeps how it completed, [settle] resumes the [try] block
    with that completion. *)
Definition attempt {A} (m : M O A) : M O (thrown + A) :=
  fun s =>
    match m s with
    | (Normal a, s') => (Normal (inr a), s')
    | (Throw e, s') => (Normal (inl e), s')
    end.

Definition settle {A} (r : thrown + A) : M O A :=
  fun s => (of_sum r, s).

Definition assigned {A} (r : thrown + A) : option A :=
  match r with
  | inr a => Some a
  | inl _ => None
  end.

End Calls.

(* ================================================================= *)
(** ** src/services/ipnsUpdater.ts *)

Section IpnsUpdater.

Context {O : Objects} {P : Platform O}.

(** Get IPNS name from a private key. *)
Definition getIPNSNameFromKeypair (privateKey : option PrivateKey)
    : M O string :=
  match privateKey with
  | None => ret ""
  | Some k => peerIdFromPrivateKey_toCID_toString k
  end.

(** The [resolutionMethods] array of [resolveIPNSFromPublicKey]. *)
Definition resolveIPNSFromPublicKey_resolutionMethods
    (ipnsPublicKey : string) : list (M O string) :=
  [ (* Method 1: Try fetching from gateway and check headers *)
    (response <- fetch (mkRequest ("https://ipfs.io/ipns/" ++ ipnsPublicKey)
                                  "HEAD" [] None) ;;
     let failed : M O string :=
       throw (ErrorObj ("Gateway header resolution failed: "
                        ++ string_of_nat (status response))) in
     if ok response then
       match headers_get response "X-Ipfs-Roots" with
       | Some ipfsRoots =>
           if truthy_string ipfsRoots then ret (trim ipfsRoots) else failed
       | None => failed
       end
     else failed);
    (* Method 2: Try Cloudflare IPFS gateway *)
    (response <- fetch (mkRequest ("https://cloudflare-ipfs.com/ipns/"
                                   ++ ipnsPublicKey) "HEAD" [] None) ;;
     let failed : M O string :=
       throw (ErrorObj ("Cloudflare gateway failed: "
                        ++ string_of_nat (status response))) in
     if ok response then
       match headers_get response "X-Ipfs-Roots" with
       | Some ipfsRoots =>
           if truthy_string ipfsRoots then ret (trim ipfsRoots) else failed
       | None => failed
       end
     else failed) ]%string.

(** Resolution that works with just the IPNS public key. *)
Definition resolveIPNSFromPublicKey (ipnsPublicKey : string)
    : M O IPNSResolveResult :=
  try_catch
    (let resolutionMethods :=
       resolveIPNSFromPublicKey_resolutionMethods ipnsPublicKey in
     (* Try each method until one succeeds *)
     for_of resolutionMethods
       (fun method =>
          try_catch
            (ipfsHash <- method ;;
             ret (Some (mkIPNSResolveResult
                          true (Some ipfsHash) (Some ipnsPublicKey) None)))
            (fun error =>
               console warn_level
                 [arg_string "⚠️ Resolution method failed:"; arg_thrown error] ;;
               ret None))
       (ret (mkIPNSResolveResult
               false None (Some ipnsPublicKey)
               (Some "All resolution methods failed"))))
    (fun error =>
       console error_level
         [arg_string "❌ IPNS resolve failed:"; arg_thrown error] ;;
       ret (mkIPNSResolveResult
              false None None
              (Some (message_or "Unknown IPNS resolve error" error)))).

(** The [resolutionMethods] array of [resolveIPNSFromPrivateKey]. *)
Definition resolveIPNSFromPrivateKey_resolutionMethods
    (ipnsName : string) : list (M O string) :=
  [ (* Method 1: Try fetching from gateway and check headers *)
    (response <- fetch (mkRequest ("https://ipfs.io/ipns/" ++ ipnsName)
                                  "HEAD" [] None) ;;
     let failed : M O string :=
       throw (ErrorObj ("Gateway header resolution failed: "
                        ++ string_of_nat (status response))) in
     if ok response then
       match headers_get response "X-Ipfs-Roots" with
       | Some ipfsRoots =>
           if truthy_string ipfsRoots then ret (trim ipfsRoots) else failed
       | None => failed
       end
     else failed);
    (* Method 2: Try Cloudflare IPFS gateway *)
    (response <- fetch (mkRequest ("https://cloudflare-ipfs.com/ipns/"
                                   ++ ipnsName) "HEAD" [] None) ;;
     let failed : M O string :=
       throw (ErrorObj ("Cloudflare gateway failed: "
                        ++ string_of_nat (status response))) in
     if ok response then
       match headers_get response "X-Ipfs-Roots" with
       | Some ipfsRoots =>
           if truthy_string ipfsRoots then ret (trim ipfsRoots) else failed
       | None => failed
       end
     else failed) ]%string.

(** Resolve using the private key (generates the IPNS name). *)
Definition resolveIPNSFromPrivateKey (privateKeyBase64 : string)
    : M O IPNSResolveResult :=
  try_catch
    ((* Parse private key to get IPNS name *)
     decoded <- uint8ArrayFromString privateKeyBase64 "base64" ;;
     keypair <- privateKeyFromProtobuf decoded ;;
     (if is_Ed25519 (key_type keypair) then ret tt
      else throw (ErrorObj "Only libp2p Ed25519 keys are supported")) ;;
     (* Get IPNS name *)
     ipnsName <- getIPNSNameFromKeypair (Some keypair) ;;
     let resolutionMethods :=
       resolveIPNSFromPrivateKey_resolutionMethods ipnsName in
     (* Try each method until one succeeds *)
     for_of resolutionMethods
       (fun method =>
          try_catch
            (ipfsHash <- method ;;
             ret (Some (mkIPNSResolveResult
                          true (Some ipfsHash) (Some ipnsName) None)))
            (fun error =>
               console warn_level
                 [arg_string "⚠️ Resolution method failed:"; arg_thrown error] ;;
               ret None))
       (ret (mkIPNSResolveResult
               false None (Some ipnsName)
               (Some "All resolution methods failed"))))
    (fun error =>
       console error_level
         [arg_string "❌ IPNS resolve failed:"; arg_thrown error] ;;
       ret (mkIPNSResolveResult
              false None None
              (Some (message_or "Unknown IPNS resolve error" error)))).

(** Update IPNS record to point to new IPFS content. *)
Definition updateIPNSRecord (ipfsHash privateKeyBase64 : string)
    : M O IPNSUpdateResult :=
  (* let helia; try { helia = await createHeliaHTTP() ... *)
  created <- attempt createHeliaHTTP ;;
  let helia : option (Helia O) := assigned created in
  try_finally
    (try_catch
       (helia <- settle created ;;
        (* Parse private key *)
        decoded <- uint8ArrayFromString privateKeyBase64 "base64" ;;
        keypair <- privateKeyFromProtobuf decoded ;;
        (if is_Ed25519 (key_type keypair) then ret tt
         else throw (ErrorObj "Only libp2p Ed25519 keys are supported")) ;;
        (* Parse CID *)
        cid <- CID_parse ipfsHash ;;
        (* Get IPNS name *)
        ipnsName <- getIPNSNameFromKeypair (Some keypair) ;;
        (* Use timestamp-based sequence number *)
        now <- Date_now ;;
        let sequenceNumber : Z := now in
        let ttlMs := DEFAULT_TTL_MS in
        let lifetime := DEFAULT_LIFETIME_MS in
        (* Create IPNS record *)
        record <- createIPNSRecord keypair cid sequenceNumber lifetime
                                   (ttlMs * 1000000)%Z ;;
        (* Marshal and publish *)
        marshaledRecord <- marshalIPNSRecord record ;;
        multihash <- toMultihash (publicKey keypair) ;;
        routingKey <- multihashToIPNSRoutingKey multihash ;;
        routing_put helia routingKey marshaledRecord ;;
        ret (mkIPNSUpdateResult true (Some ipnsName) None))
       (fun error =>
          console error_level
            [arg_string "❌ IPNS update failed:"; arg_thrown error] ;;
          ret (mkIPNSUpdateResult
                 false None
                 (Some (message_or "Unknown IPNS update error" error)))))
    ((* Always stop Helia to allow process to exit *)
     match helia with
     | Some h =>
         try_catch (stop h)
           (fun stopError =>
              console warn_level
                [arg_string "⚠️  Warning: Error stopping Helia:";
                 arg_thrown stopError])
     | None => ret tt
     end).

(** [environmentConfig?.ipnsPrivateKey || null] *)
Definition getIPNSPrivateKeyFromConfig
    (environmentConfig : option EnvironmentConfig) : option string :=
  match environmentConfig with
  | Some cfg =>
      match ipnsPrivateKey cfg with
      | Some key => if truthy_string key then Some key else None
      | None => None
      end
  | None => None
  end.

(** Check if IPNS is configured for an environment config. *)
Definition isIPNSConfiguredForEnvironmentConfig
    (environmentConfig : option EnvironmentConfig) : bool :=
  let privateKey := getIPNSPrivateKeyFromConfig environmentConfig in
  match privateKey with
  | Some _ => true
  | None => false
  end.

(** Upload to IPFS and update IPNS in one operation. *)
Definition uploadAndUpdateIPNS (config : json) (environmentName : string)
    (environmentConfig : option EnvironmentConfig) (quickNodeApiKey : string)
    (uploadToIPFS : json -> string -> option string -> M O IpfsResult)
    : M O UploadAndUpdate :=
  (* First upload to IPFS *)
  ipfsResult <- uploadToIPFS config environmentName (Some quickNodeApiKey) ;;
  match ipfs_success ipfsResult, ipfs_ipfsHash ipfsResult with
  | true, Some hash =>
      if truthy_string hash then
        (* Then update IPNS if configured in the environment config *)
        let privateKey := getIPNSPrivateKeyFromConfig environmentConfig in
        match privateKey with
        | None => ret (mkUploadAndUpdate ipfsResult None)
        | Some privateKey =>
            ipnsResult <- updateIPNSRecord hash privateKey ;;
            ret (mkUploadAndUpdate ipfsResult (Some ipnsResult))
        end
      else ret (mkUploadAndUpdate ipfsResult None)
  | _, _ => ret (mkUploadAndUpdate ipfsResult None)
  end.

End IpnsUpdater.

(* ================================================================= *)
(** ** JavaScript operators on parsed JSON *)

(** ECMAScript [ToBoolean]. *)
Definition truthy (v : jsval) : bool :=
  match v with
  | None => false
  | Some JNull => false
  | Some (JBool b) => b
  | Some (JNumber n) => negb (Z.eqb n 0)
  | Some (JString s) => truthy_string s
  | Some (JArray _) => true
  | Some (JObject _) => true
  end.

Fixpoint lookup_member (key : string) (members : list (string * json))
    : jsval :=
  match members with
  | [] => None
  | (k, v) :: rest =>
      if String.eqb k key then Some v else lookup_member key rest
  end.

(** [v.key] for the property names the services read ([data], [name],
    [requestId], [IpfsHash], [cid], [hash], [pin]), none of which is
    inherited by an array, a string, a number or a boolean: reading them
    off [null] or [undefined] is a TypeError, off an object it is the
    own property, off anything else it is [undefined]. *)
Definition get_property (v : jsval) (key : string) : thrown + jsval :=
  match v with
  | None =>
      inl (ErrorObj ("Cannot read properties of undefined (reading '"
                     ++ key ++ "')"))
  | Some JNull =>
      inl (ErrorObj ("Cannot read properties of null (reading '"
                     ++ key ++ "')"))
  | Some (JObject members) => inr (lookup_member key members)
  | Some _ => inr None
  end%string.

(** [v?.key] *)
Definition get_optional (v : jsval) (key : string) : thrown + jsval :=
  match v with
  | None => inr None
  | Some JNull => inr None
  | Some _ => get_property v key
  end.

(** [a || b]: [b] is only evaluated when [a] is falsy. *)
Definition js_or (a b : thrown + jsval) : thrown + jsval :=
  match a with
  | inl e => inl e
  | inr v => if truthy v then inr v else b
  end.

(** [v.k1.k2] and [v.k1?.k2] *)
Definition get_path (v : jsval) (k1 k2 : string) : thrown + jsval :=
  match get_property v k1 with
  | inl e => inl e
  | inr inner => get_property inner k2
  end.

Definition get_path_optional (v : jsval) (k1 k2 : string)
    : thrown + jsval :=
  match get_property v k1 with
  | inl e => inl e
  | inr inner => get_optional inner k2
  end.

(** [obj.name === fileName] *)
Definition name_is (fileName : string) (obj : json) : thrown + bool :=
  match get_property (Some obj) "name" with
  | inl e => inl e
  | inr (Some (JString s)) => inr (String.eqb s fileName)
  | inr _ => inr false
  end.

(** [items.find(obj => obj.name === fileName)] on an array. *)
Fixpoint array_find_by_name (fileName : string) (items : list json)
    : thrown + jsval :=
  match items with
  | [] => inr None
  | obj :: rest =>
      match name_is fileName obj with
      | inl e => inl e
      | inr true => inr (Some obj)
      | inr false => array_find_by_name fileName rest
      end
  end.

(** [objects.find(obj => obj.name === fileName)] on whatever [objects]
    is: only arrays have a [find] method. *)
Definition find_by_name (fileName : string) (objects : json)
    : thrown + jsval :=
  match objects with
  | JArray items => array_find_by_name fileName items
  | JNull =>
      inl (ErrorObj "Cannot read properties of null (reading 'find')")
  | _ => inl (ErrorObj "objects.find is not a function")
  end.

(** [`${s}`] for an optional string property. *)
Definition show_opt_string (o : option string) : string :=
  match o with
  | Some s => s
  | None => "undefined"
  end.

(* ================================================================= *)
(** ** src/services/ipfsUploader.ts *)

Record UploadResult : Type := mkUploadResult {
  up_success : bool;
  up_ipfsHash : jsval;
  up_error : option string
}.

(** Return value of [getAllPinnedObjects]. *)
Record PinnedObjects : Type := mkPinnedObjects {
  objects : json;
  objects_error : option string
}.

(** Return value of [findPinnedObjectByName]; [None] is [null]. *)
Record FoundObject : Type := mkFoundObject {
  object : option json;
  object_error : option string
}.

(** Return value of [deletePinnedObject]. *)
Record DeleteResult : Type := mkDeleteResult {
  del_success : bool;
  del_error : option string
}.

(** Get QuickNode API key from config or environment. *)
Definition getQuickNodeApiKey (apiKey : option string) : thrown + string :=
  let key := apiKey in
  match key with
  | Some k =>
      if truthy_string k then inr k
      else inl (ErrorObj
        "QuickNode API key is required - either from config.__env.quickNodeApiKey")
  | None =>
      inl (ErrorObj
        "QuickNode API key is required - either from config.__env.quickNodeApiKey")
  end.

Section IpfsUploader.

Context {O : Objects} {P : Platform O}.

(** Get all pinned objects from QuickNode IPFS. *)
Definition getAllPinnedObjects (quickNodeApiKey : option string)
    : M O PinnedObjects :=
  try_catch
    (apiKey <- settle (getQuickNodeApiKey quickNodeApiKey) ;;
     response <- fetch (mkRequest
       "https://api.quicknode.com/ipfs/rest/v1/pinning?pageNumber=1&perPage=10"
       "GET" [("x-api-key", apiKey)] None) ;;
     if negb (ok response) then
       errorText <- settle (text response) ;;
       ret (mkPinnedObjects (JArray [])
              (Some ("Failed to get pinned objects: "
                     ++ string_of_nat (status response) ++ " - "
                     ++ errorText)%string))
     else
       result <- settle (body_json response) ;;
       found <- settle (js_or (get_property (Some result) "data")
                              (inr (Some result))) ;;
       ret (mkPinnedObjects
              (match found with
               | Some v => if truthy found then v else JArray []
               | None => JArray []
               end)
              None))
    (fun error =>
       ret (mkPinnedObjects (JArray [])
              (Some (message_or "Unknown error getting pinned objects"
                                error)))).

(** Find a pinned object by name. *)
Definition findPinnedObjectByName (fileName : string)
    (quickNodeApiKey : option string) : M O FoundObject :=
  try_catch
    (listed <- getAllPinnedObjects quickNodeApiKey ;;
     if truthy_opt_string (objects_error listed) then
       ret (mkFoundObject None (objects_error listed))
     else
       foundObject <- settle (find_by_name fileName (objects listed)) ;;
       ret (mkFoundObject
              (if truthy foundObject then foundObject else None) None))
    (fun error =>
       ret (mkFoundObject None
              (Some (message_or "Unknown error finding pinned object"
                                error)))).

(** Delete a pinned object from QuickNode IPFS.  [requestId] is
    declared a string; the caller passes whatever it read off the parsed
    listing, and the template literal converts it. *)
Definition deletePinnedObject (requestId : jsval)
    (quickNodeApiKey : option string) : M O DeleteResult :=
  try_catch
    (apiKey <- settle (getQuickNodeApiKey quickNodeApiKey) ;;
     response <- fetch (mkRequest
       ("https://api.quicknode.com/ipfs/rest/v1/pinning/"
        ++ ToString_fn requestId)%string
       "DELETE" [("x-api-key", apiKey)] None) ;;
     if negb (ok response) then
       errorText <- settle (text response) ;;
       ret (mkDeleteResult false
              (Some ("Failed to delete pinned object: "
                     ++ string_of_nat (status response) ++ " - "
                     ++ errorText)%string))
     else ret (mkDeleteResult true None))
    (fun error =>
       ret (mkDeleteResult false
              (Some (message_or "Unknown error deleting pinned object"
                                error)))).

(** The chain of [||] that reads the content hash off the upload
    response. *)
Definition read_newCid (uploadResult : json) : thrown + jsval :=
  let r := Some uploadResult in
  js_or (get_property r "IpfsHash")
  (js_or (get_property r "cid")
  (js_or (get_property r "hash")
  (js_or (get_path_optional r "pin" "cid")
  (js_or (get_path_optional r "pin" "hash")
  (js_or (get_path_optional r "data" "IpfsHash")
         (get_path_optional r "data" "cid")))))).

(** Upload configuration data to IPFS via QuickNode. *)
Definition uploadConfigToIPFS (config : json) (environmentName : string)
    (quickNodeApiKey : option string) : M O UploadResult :=
  try_catch
    (apiKey <- settle (getQuickNodeApiKey quickNodeApiKey) ;;
     (* Create JSON string from config *)
     let jsonString := JSON_stringify_fn config 2 in
     let fileName := ("env-" ++ environmentName ++ ".json")%string in
     (* Check if a file with this name already exists BEFORE uploading *)
     found <- findPinnedObjectByName fileName (Some apiKey) ;;
     let existingObject := object found in
     let findError := object_error found in
     (if truthy_opt_string findError then
        console warn_level
          [arg_string ("Warning: Could not check for existing file: "
                       ++ show_opt_string findError)%string]
      else ret tt) ;;
     (if truthy existingObject then
        console log_level
          [arg_string ("File " ++ fileName
             ++ " already exists, deleting existing pinned object...")%string] ;;
        (* Delete the existing pinned object first *)
        requestId <- settle (get_property existingObject "requestId") ;;
        deleteResult <- deletePinnedObject requestId (Some apiKey) ;;
        (if negb (del_success deleteResult) then
           throw (ErrorObj ("Failed to delete existing file: "
                            ++ show_opt_string (del_error deleteResult))%string)
         else ret tt) ;;
        console log_level
          [arg_string ("Successfully deleted existing file "
                       ++ fileName)%string]
      else ret tt) ;;
     (* Upload the new content *)
     let formData :=
       mkFormData jsonString "application/json" fileName
                  fileName "application/json" in
     uploadResponse <- fetch (mkRequest
       "https://api.quicknode.com/ipfs/rest/v1/s3/put-object"
       "POST" [("x-api-key", apiKey)] (Some formData)) ;;
     (if negb (ok uploadResponse) then
        errorText <- settle (text uploadResponse) ;;
        throw (ErrorObj ("QuickNode upload failed: "
                         ++ string_of_nat (status uploadResponse) ++ " - "
                         ++ errorText)%string)
      else ret tt) ;;
     uploadResult <- settle (body_json uploadResponse) ;;
     console log_level [arg_string "Upload result:"; arg_json uploadResult] ;;
     (* Try different possible response formats *)
     newCid <- settle (read_newCid uploadResult) ;;
     (if negb (truthy newCid) then
        console error_level
          [arg_string "Full upload response:"; arg_json uploadResult] ;;
        throw (ErrorObj
          ("No IPFS hash returned from QuickNode upload. Response: "
           ++ JSON_stringify_fn uploadResult 0)%string)
      else ret tt) ;;
     ret (mkUploadResult true newCid None))
    (fun error =>
       ret (mkUploadResult false None
              (Some (message_or "Unknown upload error" error)))).

(** Check if QuickNode is configured. *)
Definition isQuickNodeConfigured (quickNodeApiKey : option string) : bool :=
  truthy_opt_string quickNodeApiKey.

End IpfsUploader.

(* ================================================================= *)
(** ** Observations on traces *)

Section Observations.

Context {O : Objects}.

(** The requests handed to [fetch], in order. *)
Fixpoint requests (evs : list (event O)) : list Request :=
  match evs with
  | [] => []
  | fetch_ req :: rest => req :: requests rest
  | _ :: rest => requests rest
  end.

Definition fetched_urls (evs : list (event O)) : list string :=
  map req_url (requests evs).



(** The sequence numbers passed to [createIPNSRecord]. *)
Fixpoint signed_sequences (evs : list (event O)) : list Z :=
  match evs with
  | [] => []
  | createIPNSRecord_ _ _ sequenceNumber _ _ _ :: rest =>
      sequenceNumber :: signed_sequences rest
  | _ :: rest => signed_sequences rest
  end.

(** The values that [Date.now()] returned. *)
Fixpoint clock_readings (evs : list (event O)) : list Z :=
  match evs with
  | [] => []
  | Date_now_ now :: rest => now :: clock_readings rest
  | _ :: rest => clock_readings rest
  end.

(** A call to [createHeliaHTTP], which only [updateIPNSRecord] makes, as
    its first step. *)
Definition starts_session (ev : event O) : bool :=
  match ev with
  | createHeliaHTTP_ _ => true
  | _ => false
  end.

(** The records that were handed to [helia.routing.put]. *)
Fixpoint published (evs : list (event O)) : list (bytes * bytes) :=
  match evs with
  | [] => []
  | routing_put_ _ routingKey marshaledRecord :: rest =>
      (routingKey, marshaledRecord) :: published rest
  | _ :: rest => published rest
  end.

Definition is_console (ev : event O) : bool :=
  match ev with
  | console_ _ _ => true
  | _ => false
  end.

(** The last call other than to [console]. *)
Fixpoint last_call (evs : list (event O)) : option (event O) :=
  match evs with
  | [] => None
  | ev :: rest =>
      match last_call rest with
      | Some l => Some l
      | None => if is_console ev then None else Some ev
      end
  end.

(** Deriving a name, signing, publishing or asking a gateway. *)
Definition touches_key_or_network (ev : event O) : bool :=
  match ev with
  | peerIdFromPrivateKey_ _ => true
  | createIPNSRecord_ _ _ _ _ _ _ => true
  | marshalIPNSRecord_ _ => true
  | toMultihash_ _ => true
  | multihashToIPNSRoutingKey_ _ => true
  | routing_put_ _ _ _ => true
  | fetch_ _ => true
  | _ => false
  end.

(** Signing a record or handing one to the routing. *)
Definition signs_or_publishes (ev : event O) : bool :=
  match ev with
  | createIPNSRecord_ _ _ _ _ _ _ => true
  | routing_put_ _ _ _ => true
  | _ => false
  end.

End Observations.

(* ================================================================= *)
(** ** The two resolve entry points as one family *)

Section Resolve.

Context {O : Objects} {P : Platform O}.

Inductive resolve_call : Type :=
| FromPublicKey (ipnsPublicKey : string)
| FromPrivateKey (privateKeyBase64 : string).

Definition resolve (c : resolve_call) : M O IPNSResolveResult :=
  match c with
  | FromPublicKey ipnsPublicKey => resolveIPNSFromPublicKey ipnsPublicKey
  | FromPrivateKey privateKeyBase64 =>
      resolveIPNSFromPrivateKey privateKeyBase64
  end.

(** The key a private-key call decodes, when it decodes to one. *)
Definition decoded_key (privateKeyBase64 : string) : option PrivateKey :=
  match uint8ArrayFromString_fn privateKeyBase64 "base64" with
  | inr b =>
      match privateKeyFromProtobuf_fn b with
      | inr keypair => Some keypair
      | inl _ => None
      end
  | inl _ => None
  end.

(** The name a call resolves: the argument itself, or the peer id of a
    valid Ed25519 key. *)
Definition identity_of (c : resolve_call) : option string :=
  match c with
  | FromPublicKey ipnsPublicKey => Some ipnsPublicKey
  | FromPrivateKey privateKeyBase64 =>
      match decoded_key privateKeyBase64 with
      | Some keypair =>
          if is_Ed25519 (key_type keypair)
          then Some (peerId_base36_fn (publicKey keypair))
          else None
      | None => None
      end
  end.

(** The strategies of a call, in the order of its array. *)
Definition chain_of (c : resolve_call) (name : string) : list (M O string) :=
  match c with
  | FromPublicKey _ => resolveIPNSFromPublicKey_resolutionMethods name
  | FromPrivateKey _ => resolveIPNSFromPrivateKey_resolutionMethods name
  end.

(** The state in which the first strategy starts: a private-key call has
    decoded the key and computed the name by then. *)
Definition chain_start (c : resolve_call) (s : state O) : state O :=
  match c with
  | FromPublicKey _ => s
  | FromPrivateKey privateKeyBase64 =>
      match uint8ArrayFromString_fn privateKeyBase64 "base64" with
      | inr b =>
          match privateKeyFromProtobuf_fn b with
          | inr keypair =>
              emit (peerIdFromPrivateKey_ keypair)
                (emit (privateKeyFromProtobuf_ b)
                   (emit (uint8ArrayFromString_ privateKeyBase64 "base64") s))
          | inl _ => s
          end
      | inl _ => s
      end
  end.

(** The state after the loop's [catch] block has logged a failure. *)
Definition absorbed (error : thrown) (s : state O) : state O :=
  emit (console_ warn_level
          [arg_string "⚠️ Resolution method failed:"; arg_thrown error]) s.

(** The body of the two loops, for a given name. *)
Definition loop_body (name : string) (method : M O string)
    : M O (option IPNSResolveResult) :=
  try_catch
    (ipfsHash <- method ;;
     ret (Some (mkIPNSResolveResult true (Some ipfsHash) (Some name) None)))
    (fun error =>
       console warn_level
         [arg_string "⚠️ Resolution method failed:"; arg_thrown error] ;;
       ret None).

(** [all_fail ms s s']: run one after the other from [s] as the loop
    runs them, every strategy of [ms] throws, and the loop is in [s']
    after the last one. *)
Inductive all_fail : list (M O string) -> state O -> state O -> Prop :=
| all_fail_nil : forall s, all_fail [] s s
| all_fail_cons : forall m ms s e s1 s2,
    m s = (Throw e, s1) ->
    all_fail ms (absorbed e s1) s2 ->
    all_fail (m :: ms) s s2.

(** The two gateways, in the order of the arrays. *)
Definition gateway_urls (name : string) : list string :=
  [ "https://ipfs.io/ipns/" ++ name;
    "https://cloudflare-ipfs.com/ipns/" ++ name ]%string.

(** Resolving by the spec's words: derive the identity from the key,
    then resolve the identity through the public entry point. *)
Definition deriveIdentity (privateKeyBase64 : string) : M O string :=
  decoded <- uint8ArrayFromString privateKeyBase64 "base64" ;;
  keypair <- privateKeyFromProtobuf decoded ;;
  (if is_Ed25519 (key_type keypair) then ret tt
   else throw (ErrorObj "Only libp2p Ed25519 keys are supported")) ;;
  getIPNSNameFromKeypair (Some keypair).

Definition resolve_via_identity (privateKeyBase64 : string)
    : M O IPNSResolveResult :=
  identity <- deriveIdentity privateKeyBase64 ;;
  resolveIPNSFromPublicKey identity.

(** The steps of [updateIPNSRecord] that run before [CID.parse], in
    their order: the error the call reports when the parse throws
    [parse_error] is the first failure among them, and the parser's own
    when they all went through. *)
Definition error_on_malformed_hash (created : thrown + Helia O)
    (privateKeyBase64 : string) (parse_error : thrown) : thrown :=
  match created with
  | inl helia_error => helia_error
  | inr _ =>
      match uint8ArrayFromString_fn privateKeyBase64 "base64" with
      | inl base64_error => base64_error
      | inr b =>
          match privateKeyFromProtobuf_fn b with
          | inl key_error => key_error
          | inr keypair =>
              if is_Ed25519 (key_type keypair) then parse_error
              else ErrorObj "Only libp2p Ed25519 keys are supported"
          end
      end
  end.

End Resolve.

(* ================================================================= *)
(** ** A scripted platform, for concrete runs *)

Module Script.

(** The world: a clock that advances by [tick] at every reading, the
    replies that [fetch] will hand out in turn, and how Helia behaves. *)
Record world : Type := mkWorld {
  clock : Z;
  tick : Z;
  replies : list (thrown + Response);
  helia_starts : bool;
  routing_accepts : bool;
  next_helia : nat
}.

Definition objects : Objects := mkObjects world string (string * Z) nat.

Definition fetch_script (req : Request) (w : world)
    : (thrown + Response) * world :=
  match replies w with
  | [] => (inl (ErrorObj "Failed to fetch"), w)
  | r :: rest =>
      (r, mkWorld (clock w) (tick w) rest (helia_starts w)
                  (routing_accepts w) (next_helia w))
  end.

Definition now_script (w : world) : Z * world :=
  (clock w,
   mkWorld (clock w + tick w) (tick w) (replies w) (helia_starts w)
           (routing_accepts w) (next_helia w)).

Definition helia_script (w : world) : (thrown + nat) * world :=
  if helia_starts w then
    (inr (next_helia w),
     mkWorld (clock w) (tick w) (replies w) (helia_starts w)
             (routing_accepts w) (S (next_helia w)))
  else (inl (ErrorObj "Helia failed to start"), w).

Definition put_script (h : nat) (routingKey marshaledRecord : bytes)
    (w : world) : (thrown + unit) * world :=
  if routing_accepts w then (inr tt, w)
  else (inl (ErrorObj "routing rejected the record"), w).

Definition stop_script (h : nat) (w : world) : (thrown + unit) * world :=
  (inr tt, w).

Definition sign_script (k : PrivateKey) (cid : string)
    (sequenceNumber lifetime ttlNs : Z) (w : world)
    : (thrown + (string * Z)) * world :=
  (inr (cid, sequenceNumber), w).

(** A key envelope: one byte for the key type, then the key data. *)
Definition decode_key (b : bytes) : thrown + PrivateKey :=
  match b with
  | [] => inl (ErrorObj "unexpected end of input")
  | tag :: data =>
      match tag with
      | "r"%byte => inr (mkPrivateKey (mkPublicKey RSA data) data)
      | "e"%byte => inr (mkPrivateKey (mkPublicKey Ed25519 data) data)
      | "s"%byte => inr (mkPrivateKey (mkPublicKey secp256k1 data) data)
      | "c"%byte => inr (mkPrivateKey (mkPublicKey ECDSA data) data)
      | _ => inl (ErrorObj "unknown key type")
      end
  end.

Definition parse_cid (s : string) : thrown + string :=
  if String.prefix "baf" s then inr s
  else inl (ErrorObj "Invalid CID").

Definition show_json (v : jsval) : string :=
  match v with
  | Some (JString s) => s
  | Some JNull => "null"
  | None => "undefined"
  | Some _ => "[object Object]"
  end.

Definition platform : Platform objects :=
  Build_Platform objects
    fetch_script
    now_script
    helia_script
    put_script
    stop_script
    sign_script
    (fun s _ => inr (list_byte_of_string s))
    decode_key
    (fun k => ("k51" ++ string_of_list_byte (pub_raw k))%string)
    parse_cid
    (fun r => inr (list_byte_of_string (fst r)))
    pub_raw
    (fun mh => "/"%byte :: mh)
    (fun j _ => show_json (Some j))
    show_json.

(** A gateway answer carrying an [X-Ipfs-Roots] header. *)
Definition roots_reply (roots : string) : thrown + Response :=
  inr (mkResponse true 200
         (fun name => if String.eqb name "X-Ipfs-Roots" then Some roots
                      else None)
         (inr "") (inl (ErrorObj "Unexpected end of JSON input"))).

(** An answer with a status and a body, without the header. *)
Definition plain_reply (okay : bool) (code : nat) (body : string)
    (parsed : thrown + json) : thrown + Response :=
  inr (mkResponse okay code (fun _ => None) (inr body) parsed).

Definition start (w : world) : state objects := mkState (O := objects) w [].

(** A world where everything works and the clock does not move between
    two readings. *)
Definition calm (answers : list (thrown + Response)) : world :=
  mkWorld 1700000000000 0 answers true true 0.

End Script.

(* ================================================================= *)
(** ** Proof tools *)

(** Split on the outermost test whose subject has no test inside. *)
Ltac split_call :=
  match goal with
  | |- context [match ?x with _ => _ end] =>
      lazymatch x with
      | context [match _ with _ => _ end] => fail
      | _ => destruct x eqn:?
      end
  end.

(* ================================================================= *)
(** ** The rest of ipfsUploader.ts, and its earlier version *)

(** Get upload status message.  The call [isQuickNodeConfigured()]
    passes no argument. *)
Definition getUploadStatusMessage (environmentName : string) : string :=
  if negb (isQuickNodeConfigured None) then
    "QuickNode not configured. Please set quickNodeApiKey in _env section in config"
  else
    ("Ready to upload " ++ environmentName
     ++ " configuration to IPFS via QuickNode")%string.

(** A second version of the upload service is kept in the repository,
    here called the earlier one: it posts the new content without
    looking for an object of the same name, and reads the content hash
    off fewer places. *)
Module Earlier.

Section Uploader.

Context {O : Objects} {P : Platform O}.

(** [result.pin?.cid || result.cid || result.hash] *)
Definition read_ipfsHash (result : json) : thrown + jsval :=
  let r := Some result in
  js_or (get_path_optional r "pin" "cid")
  (js_or (get_property r "cid")
         (get_property r "hash")).

(** Upload configuration data to IPFS via QuickNode. *)
Definition uploadConfigToIPFS (config : json) (environmentName : string)
    (quickNodeApiKey : option string) : M O UploadResult :=
  try_catch
    (apiKey <- settle (getQuickNodeApiKey quickNodeApiKey) ;;
     (* Create JSON string from config *)
     let jsonString := JSON_stringify_fn config 2 in
     let fileName := ("env-" ++ environmentName ++ ".json")%string in
     (* Create FormData for QuickNode API *)
     let formData :=
       mkFormData jsonString "application/json" fileName
                  fileName "application/json" in
     (* Upload to QuickNode *)
     response <- fetch (mkRequest
       "https://api.quicknode.com/ipfs/rest/v1/s3/put-object"
       "POST" [("x-api-key", apiKey)] (Some formData)) ;;
     (if negb (ok response) then
        errorText <- settle (text response) ;;
        throw (ErrorObj ("QuickNode upload failed: "
                         ++ string_of_nat (status response) ++ " - "
                         ++ errorText)%string)
      else ret tt) ;;
     result <- settle (body_json response) ;;
     (* Extract CID from QuickNode response *)
     ipfsHash <- settle (read_ipfsHash result) ;;
     (if negb (truthy ipfsHash) then
        throw (ErrorObj "No IPFS hash returned from QuickNode")
      else ret tt) ;;
     ret (mkUploadResult true ipfsHash None))
    (fun error =>
       ret (mkUploadResult false None
              (Some (message_or "Unknown upload error" error)))).

End Uploader.

End Earlier.

(* ================================================================= *)
(** ** Names for the requests the services send *)

Section Requests.

Context {O : Objects} {P : Platform O}.

(** [fetch(url, { method: 'HEAD' })] *)
Definition head_request (url : string) : Request :=
  mkRequest url "HEAD" [] None.

Definition listing_request (apiKey : string) : Request :=
  mkRequest
    "https://api.quicknode.com/ipfs/rest/v1/pinning?pageNumber=1&perPage=10"
    "GET" [("x-api-key", apiKey)] None.

Definition delete_request (apiKey : string) (requestId : jsval) : Request :=
  mkRequest
    ("https://api.quicknode.com/ipfs/rest/v1/pinning/"
     ++ ToString_fn requestId)%string
    "DELETE" [("x-api-key", apiKey)] None.

Definition upload_request (apiKey : string) (config : json)
    (environmentName : string) : Request :=
  mkRequest "https://api.quicknode.com/ipfs/rest/v1/s3/put-object"
    "POST" [("x-api-key", apiKey)]
    (Some (mkFormData (JSON_stringify_fn config 2) "application/json"
             ("env-" ++ environmentName ++ ".json")%string
             ("env-" ++ environmentName ++ ".json")%string
             "application/json")).

(** The message of the error that [getQuickNodeApiKey] throws. *)
Definition api_key_required : string :=
  "QuickNode API key is required - either from config.__env.quickNodeApiKey".

(** A gateway answer that a strategy accepts: an ok response with a
    non-empty [X-Ipfs-Roots] header; the strategy returns the header
    value trimmed. *)
Definition accepted_roots (reply : thrown + Response) : option string :=
  match reply with
  | inr response =>
      if ok response then
        match headers_get response "X-Ipfs-Roots" with
        | Some ipfsRoots =>
            if truthy_string ipfsRoots then Some (trim ipfsRoots) else None
        | None => None
        end
      else None
  | inl _ => None
  end.

(** A string of white space and line terminators only. *)
Fixpoint all_whitespace (s : string) : bool :=
  match s with
  | EmptyString => true
  | String c rest => is_js_whitespace c && all_whitespace rest
  end.

(** The calls a resolve makes: decoding the key, computing the name,
    fetching and logging. *)
Definition resolve_step (ev : event O) : bool :=
  match ev with
  | fetch_ _ => true
  | console_ _ _ => true
  | uint8ArrayFromString_ _ _ => true
  | privateKeyFromProtobuf_ _ => true
  | peerIdFromPrivateKey_ _ => true
  | _ => false
  end.

(** The calls the upload service makes: fetching and logging. *)
Definition upload_step (ev : event O) : bool :=
  match ev with
  | fetch_ _ => true
  | console_ _ _ => true
  | _ => false
  end.

(** The records that were signed, with what they were signed from. *)
Fixpoint signed (evs : list (event O))
    : list (PrivateKey * CID O * Z * Z * Z) :=
  match evs with
  | [] => []
  | createIPNSRecord_ k cid sequenceNumber lifetime ttlNs _ :: rest =>
      (k, cid, sequenceNumber, lifetime, ttlNs) :: signed rest
  | _ :: rest => signed rest
  end.

(** The error of decoding a key: what the base64 decoder threw, or what
    the protobuf decoder threw on the decoded bytes. *)
Definition decoding_error (privateKeyBase64 : string) : option thrown :=
  match uint8ArrayFromString_fn privateKeyBase64 "base64" with
  | inl e => Some e
  | inr b =>
      match privateKeyFromProtobuf_fn b with
      | inl e => Some e
      | inr _ => None
      end
  end.

(** [asks m url]: from every state the strategy [m] sends one HEAD
    request to [url] and nothing else, and returns the accepted header
    of the answer or throws. *)
Definition asks (m : M O string) (url : string) : Prop :=
  forall (s : state O) (reply : thrown + Response) (w1 : World O),
    fetch_oracle (head_request url) (world s) = (reply, w1) ->
    snd (m s) = mkState w1 (trace s ++ [fetch_ (head_request url)]) /\
    match accepted_roots reply with
    | Some h => fst (m s) = Normal h
    | None => exists e, fst (m s) = Throw e
    end.

(** An entry of a listing that is an object whose [name] is the string
    [fileName]. *)
Definition named (fileName : string) (entry : json) : Prop :=
  exists members,
    entry = JObject members /\
    lookup_member "name" members = Some (JString fileName).

(** An entry that the search reads and passes over: not [null], and not
    named [fileName]. *)
Definition passed_over (fileName : string) (entry : json) : Prop :=
  entry <> JNull /\ ~ named fileName entry.

(** The array that a listing answer holds: the parsed body itself, or
    its [data] member. *)
Definition listing_array (result : json) (items : list json) : Prop :=
  result = JArray items \/
  exists members,
    result = JObject members /\
    lookup_member "data" members = Some (JArray items).


End Requests.

(* ================================================================= *)
(** ** The JavaScript operators on small inputs *)

Example trim_strips_both_ends :
  trim (String (ascii_of_nat 9) " bafy abc "
        ++ String (ascii_of_nat 10) EmptyString)%string = "bafy abc".
Proof. reflexivity. Qed.

Example trim_of_blanks_is_empty : trim "   " = "".
Proof. reflexivity. Qed.

Example status_in_template : string_of_nat 504 = "504".
Proof. reflexivity. Qed.

Example objects_default_to_data :
  js_or (get_property (Some (JObject [("data", JArray [JNull])])) "data")
        (inr (Some (JObject [("data", JArray [JNull])])))
  = inr (Some (JArray [JNull])).
Proof. reflexivity. Qed.

Example find_takes_the_first_match :
  find_by_name "env-prod.json"
    (JArray [JString "env-prod.json";
             JObject [("name", JString "env-dev.json")];
             JObject [("name", JString "env-prod.json");
                      ("requestId", JString "req-1")];
             JObject [("name", JString "env-prod.json");
                      ("requestId", JString "req-2")]])
  = inr (Some (JObject [("name", JString "env-prod.json");
                        ("requestId", JString "req-1")])).
Proof. reflexivity. Qed.

Example find_throws_on_a_null_entry :
  find_by_name "env-prod.json" (JArray [JNull])
  = inl (ErrorObj "Cannot read properties of null (reading 'name')").
Proof. reflexivity. Qed.

Example find_is_not_a_function_on_an_object :
  find_by_name "env-prod.json" (JObject [("pageNumber", JNumber 1)])
  = inl (ErrorObj "objects.find is not a function").
Proof. reflexivity. Qed.

(* ================================================================= *)
(** ** Properties of the resolve loop *)

Section ResolveProperties.

Context {O : Objects} {P : Platform O}.

Lemma requests_app (a b : list (event O)) :
  requests (a ++ b) = requests a ++ requests b.
Proof.
  induction a as [|ev a IH]; simpl; [reflexivity|].
  destruct ev; simpl; rewrite ?IH; reflexivity.
Qed.

Lemma fetched_urls_app (a b : list (event O)) :
  fetched_urls (a ++ b) = fetched_urls a ++ fetched_urls b.
Proof.
  unfold fetched_urls. rewrite requests_app, map_app. reflexivity.
Qed.

Lemma loop_body_throw name (m : M O string) (s s1 : state O) e :
  m s = (Throw e, s1) -> loop_body name m s = (Normal None, absorbed e s1).
Proof.
  intros H. unfold loop_body, try_catch, bind. rewrite H. reflexivity.
Qed.

Lemma loop_body_normal name (m : M O string) (s s1 : state O) h :
  m s = (Normal h, s1) ->
  loop_body name m s =
  (Normal (Some (mkIPNSResolveResult true (Some h) (Some name) None)), s1).
Proof.
  intros H. unfold loop_body, try_catch, bind. rewrite H. reflexivity.
Qed.

(** A loop whose strategies all throw falls through to what follows. *)
Lemma for_of_all_fail name after (ms : list (M O string)) :
  forall s s' : state O, all_fail ms s s' ->
    for_of ms (loop_body name) after s = after s'.
Proof.
  induction ms as [|m ms IH]; intros s s' H; inversion H; subst; simpl.
  - reflexivity.
  - unfold bind at 1. erewrite loop_body_throw by eassumption.
    apply IH. assumption.
Qed.

(** A loop returns from its first strategy that does not throw. *)
Lemma for_of_first_success name after :
  forall k (ms : list (M O string)) m h (s s1 s2 : state O),
    all_fail (firstn k ms) s s1 ->
    nth_error ms k = Some m ->
    m s1 = (Normal h, s2) ->
    for_of ms (loop_body name) after s =
    (Normal (mkIPNSResolveResult true (Some h) (Some name) None), s2).
Proof.
  induction k as [|k IH]; intros ms m h s s1 s2 Hfail Hnth Hm;
    destruct ms as [|m0 ms]; try discriminate; simpl in *.
  - inversion Hfail; subst. injection Hnth as ->.
    unfold bind. erewrite loop_body_normal by eassumption. reflexivity.
  - inversion Hfail; subst.
    unfold bind at 1. erewrite loop_body_throw by eassumption.
    eapply IH; eassumption.
Qed.

(** Each strategy asks its gateway once, whatever comes back. *)
Lemma public_method_trace name k m s c s' :
  nth_error (resolveIPNSFromPublicKey_resolutionMethods name) k = Some m ->
  m s = (c, s') ->
  exists url, nth_error (gateway_urls name) k = Some url /\
    trace s' = trace s ++ [fetch_ (mkRequest url "HEAD" [] None)].
Proof.
  intros Hnth Hm.
  destruct k as [|[|k]]; simpl in Hnth;
    [ | | destruct k; discriminate ];
    injection Hnth as <-;
    (eexists; split; [reflexivity|]);
    unfold bind, fetch, call_world in Hm;
    destruct (fetch_oracle _ (world s)) as [[e|resp] w']; simpl in Hm.
  - injection Hm as <- <-. reflexivity.
  - destruct (ok resp); [destruct (headers_get resp _) as [r|];
      [destruct (truthy_string r)|]|];
      injection Hm as <- <-; reflexivity.
  - injection Hm as <- <-. reflexivity.
  - destruct (ok resp); [destruct (headers_get resp _) as [r|];
      [destruct (truthy_string r)|]|];
      injection Hm as <- <-; reflexivity.
Qed.

Lemma chains_agree (name : string) :
  resolveIPNSFromPrivateKey_resolutionMethods name =
  resolveIPNSFromPublicKey_resolutionMethods name.
Proof. reflexivity. Qed.

Lemma chain_of_public c name :
  chain_of c name = resolveIPNSFromPublicKey_resolutionMethods name.
Proof. destruct c; reflexivity. Qed.

(** The gateways asked while a prefix of the chain fails. *)
Lemma all_fail_urls name :
  forall k s s1,
    all_fail (firstn k (resolveIPNSFromPublicKey_resolutionMethods name))
             s s1 ->
    fetched_urls (trace s1) =
    fetched_urls (trace s) ++ firstn k (gateway_urls name).
Proof.
  intros k s s1 H.
  destruct k as [|[|k]].
  - inversion H; subst. rewrite app_nil_r. reflexivity.
  - simpl firstn in H. inversion H as [|m ms s0 e sa sb Hm Hrest]; subst.
    inversion Hrest; subst.
    destruct (public_method_trace name 0 _ _ _ _ eq_refl Hm)
      as (url & Hurl & Htr).
    injection Hurl as <-.
    unfold absorbed, emit; simpl. rewrite Htr.
    rewrite !fetched_urls_app. simpl. rewrite app_nil_r. reflexivity.
  - assert (Hcut : firstn (S (S k))
               (resolveIPNSFromPublicKey_resolutionMethods name) =
             resolveIPNSFromPublicKey_resolutionMethods name).
    { simpl. destruct k; reflexivity. }
    rewrite Hcut in H.
    inversion H as [|m ms s0 e sa sb Hm Hrest]; subst.
    inversion Hrest as [|m' ms' s0' e' sa' sb' Hm' Hrest']; subst.
    inversion Hrest'; subst.
    destruct (public_method_trace name 0 _ _ _ _ eq_refl Hm)
      as (url & Hurl & Htr).
    destruct (public_method_trace name 1 _ _ _ _ eq_refl Hm')
      as (url' & Hurl' & Htr').
    injection Hurl as <-. injection Hurl' as <-.
    unfold absorbed, emit in *; simpl in *. rewrite Htr', Htr.
    rewrite !fetched_urls_app. simpl.
    destruct k; simpl; rewrite <- ?app_assoc; reflexivity.
Qed.

(** A private-key call with a valid Ed25519 key reaches its loop in
    [chain_start], with the peer id as the name. *)
Lemma private_reaches_chain privateKeyBase64 name s :
  identity_of (FromPrivateKey privateKeyBase64) = Some name ->
  resolveIPNSFromPrivateKey privateKeyBase64 s =
  try_catch
    (for_of (resolveIPNSFromPrivateKey_resolutionMethods name)
       (loop_body name)
       (ret (mkIPNSResolveResult false None (Some name)
               (Some "All resolution methods failed"))))
    (fun error =>
       console error_level
         [arg_string "❌ IPNS resolve failed:"; arg_thrown error] ;;
       ret (mkIPNSResolveResult false None None
              (Some (message_or "Unknown IPNS resolve error" error))))
    (chain_start (FromPrivateKey privateKeyBase64) s)
  /\ fetched_urls (trace (chain_start (FromPrivateKey privateKeyBase64) s))
     = fetched_urls (trace s).
Proof.
  unfold identity_of, decoded_key, chain_start.
  destruct (uint8ArrayFromString_fn privateKeyBase64 "base64")
    as [e|b] eqn:Hb; [discriminate|].
  destruct (privateKeyFromProtobuf_fn b) as [e|keypair] eqn:Hk;
    [discriminate|].
  destruct (is_Ed25519 (key_type keypair)) eqn:Ht; [|discriminate].
  intros [= <-]. split.
  - unfold resolveIPNSFromPrivateKey, try_catch at 1.
    unfold try_catch at 2.
    unfold bind at 1, uint8ArrayFromString, call_pure. rewrite Hb. simpl.
    unfold bind at 1, privateKeyFromProtobuf, call_pure. rewrite Hk. simpl.
    unfold bind at 1. rewrite Ht. unfold ret at 1.
    unfold bind at 1, getIPNSNameFromKeypair,
      peerIdFromPrivateKey_toCID_toString, call_pure. simpl.
    reflexivity.
  - unfold emit; simpl. rewrite !fetched_urls_app. simpl.
    rewrite !app_nil_r. reflexivity.
Qed.

Lemma public_reaches_chain name s :
  resolveIPNSFromPublicKey name s =
  try_catch
    (for_of (resolveIPNSFromPublicKey_resolutionMethods name)
       (loop_body name)
       (ret (mkIPNSResolveResult false None (Some name)
               (Some "All resolution methods failed"))))
    (fun error =>
       console error_level
         [arg_string "❌ IPNS resolve failed:"; arg_thrown error] ;;
       ret (mkIPNSResolveResult false None None
              (Some (message_or "Unknown IPNS resolve error" error))))
    s.
Proof. reflexivity. Qed.

(** The loop of either entry point returns from the first strategy of
    its array that does not throw, in the state that strategy left. *)
Lemma first_success_in_chain :
  forall (c : resolve_call) (name : string) (k : nat) (m : M O string)
         (h : string) (s s1 s2 : state O),
    identity_of c = Some name ->
    all_fail (firstn k (chain_of c name)) (chain_start c s) s1 ->
    nth_error (chain_of c name) k = Some m ->
    m s1 = (Normal h, s2) ->
    resolve c s =
      (Normal (mkIPNSResolveResult true (Some h) (Some name) None), s2)
    /\ fetched_urls (trace s2) =
       fetched_urls (trace s) ++ firstn (S k) (gateway_urls name).
Proof.
  intros c name k m h s s1 s2 Hid Hfail Hnth Hm.
  rewrite chain_of_public in Hfail, Hnth.
  assert (Hurls : fetched_urls (trace s2) =
            fetched_urls (trace (chain_start c s))
            ++ firstn (S k) (gateway_urls name)).
  { destruct (public_method_trace name k m s1 _ s2 Hnth Hm)
      as (url & Hurl & Htr).
    rewrite Htr, fetched_urls_app, (all_fail_urls name k _ _ Hfail).
    rewrite <- app_assoc. f_equal.
    clear - Hurl. revert Hurl. generalize (gateway_urls name).
    induction k as [|k IH]; intros [|u us] Hu; try discriminate.
    - injection Hu as ->. reflexivity.
    - simpl in Hu. cbn [firstn app]. f_equal. apply IH. exact Hu. }
  destruct c as [ipnsPublicKey | privateKeyBase64].
  - simpl in Hid. injection Hid as ->. simpl in *. split; [|exact Hurls].
    rewrite public_reaches_chain. unfold try_catch.
    erewrite for_of_first_success by eassumption. reflexivity.
  - destruct (private_reaches_chain privateKeyBase64 name s Hid)
      as [Hrun Hsame].
    split; [|rewrite <- Hsame; exact Hurls].
    simpl. rewrite Hrun, chains_agree. unfold try_catch.
    erewrite for_of_first_success by eassumption. reflexivity.
Qed.

(** The array of either entry point holds the strategy for ipfs.io and
    then the strategy for Cloudflare. *)
Lemma chain_asks_the_gateways (c : resolve_call) (name : string) :
  Forall2 asks (chain_of c name) (gateway_urls name).
Proof.
  rewrite chain_of_public.
  unfold resolveIPNSFromPublicKey_resolutionMethods, gateway_urls.
  constructor; [|constructor; [|constructor]].
  all: intros s reply w1 Hfetch;
    unfold head_request in Hfetch;
    cbv [resolveIPNSFromPublicKey_resolutionMethods bind fetch call_world
         of_sum throw ret accepted_roots fst snd];
    rewrite Hfetch;
    destruct reply as [e|response];
    [ split; [reflexivity|eexists; reflexivity] | ];
    (destruct (ok response);
     [ destruct (headers_get response "X-Ipfs-Roots") as [ipfsRoots|];
       [ destruct (truthy_string ipfsRoots) | ] | ]);
    split; try reflexivity; eexists; reflexivity.
Qed.

(** C1.  Resolution fallback order.  For either entry point (a public
    name, or a private key that decodes to an Ed25519 key, whose peer id
    is then the name), the array of strategies is the strategy that asks
    the ipfs.io gateway followed by the strategy that asks the
    Cloudflare gateway, each sending one HEAD request and returning the
    accepted header of the answer or throwing.  And for every [k]: if
    the first [k] strategies throw and the next one returns [h], the
    call resolves to [success = true], [ipfsHash = h] and the name, in
    the very state in which that strategy returned, so nothing runs
    after it; the gateways asked are then the first [k + 1] of the
    list. *)
Theorem resolve_first_success_wins :
  forall (c : resolve_call) (name : string) (s : state O),
    identity_of c = Some name ->
    Forall2 asks (chain_of c name) (gateway_urls name) /\
    forall (k : nat) (m : M O string) (h : string) (s1 s2 : state O),
      all_fail (firstn k (chain_of c name)) (chain_start c s) s1 ->
      nth_error (chain_of c name) k = Some m ->
      m s1 = (Normal h, s2) ->
      resolve c s =
        (Normal (mkIPNSResolveResult true (Some h) (Some name) None), s2)
      /\ fetched_urls (trace s2) =
         fetched_urls (trace s) ++ firstn (S k) (gateway_urls name).
Proof.
  intros c name s Hid. split.
  - apply chain_asks_the_gateways.
  - intros k m h s1 s2 Hfail Hnth Hm.
    exact (first_success_in_chain c name k m h s s1 s2 Hid Hfail Hnth Hm).
Qed.

(** C2.  Resolution exhaustion.  For either entry point, if every
    strategy of the call's array throws, each failure is logged by the
    loop and dropped, and the call resolves (it does not reject) to
    [success = false], no [ipfsHash], and the error
    ["All resolution methods failed"], which is not empty. *)
Theorem resolve_exhausted :
  forall (c : resolve_call) (name : string) (s s' : state O),
    identity_of c = Some name ->
    all_fail (chain_of c name) (chain_start c s) s' ->
    resolve c s =
      (Normal (mkIPNSResolveResult false None (Some name)
                 (Some "All resolution methods failed")), s')
    /\ (forall r s'', resolve c s = (Normal r, s'') ->
          success r = false /\ ipfsHash r = None /\
          exists msg, error r = Some msg /\ truthy_string msg = true).
Proof.
  intros c name s s' Hid Hfail.
  assert (Hrun : resolve c s =
      (Normal (mkIPNSResolveResult false None (Some name)
                 (Some "All resolution methods failed")), s')).
  { rewrite chain_of_public in Hfail.
    destruct c as [ipnsPublicKey | privateKeyBase64].
    - simpl in Hid. injection Hid as ->. simpl in *.
      rewrite public_reaches_chain. unfold try_catch.
      erewrite for_of_all_fail by eassumption. reflexivity.
    - destruct (private_reaches_chain privateKeyBase64 name s Hid)
        as [Hrun _].
      simpl. rewrite Hrun, chains_agree. unfold try_catch.
      erewrite for_of_all_fail by eassumption. reflexivity. }
  split; [exact Hrun|].
  intros r s'' Hr. rewrite Hrun in Hr. injection Hr as <- <-.
  simpl. repeat split. eexists. split; reflexivity.
Qed.

(** C7.  The two entry points converge.  For a private key that decodes
    to an Ed25519 key, [resolveIPNSFromPrivateKey] is, from every state,
    the computation that derives the identity from the key and then
    runs [resolveIPNSFromPublicKey] on it: same completion (success
    flag, content hash, identity, error) and same final state, hence the
    same calls in the same order; and the two strategy arrays are the
    same list for the same name. *)
Theorem private_entry_refines_public :
  forall (privateKeyBase64 : string) (name : string) (s : state O),
    identity_of (FromPrivateKey privateKeyBase64) = Some name ->
    resolveIPNSFromPrivateKey privateKeyBase64 s =
      resolve_via_identity privateKeyBase64 s
    /\ resolve_via_identity privateKeyBase64 s =
       resolveIPNSFromPublicKey name
         (chain_start (FromPrivateKey privateKeyBase64) s)
    /\ resolveIPNSFromPrivateKey_resolutionMethods name =
       resolveIPNSFromPublicKey_resolutionMethods name.
Proof.
  intros privateKeyBase64 name s Hid.
  destruct (private_reaches_chain privateKeyBase64 name s Hid) as [Hrun _].
  assert (Hvia : resolve_via_identity privateKeyBase64 s =
                 resolveIPNSFromPublicKey name
                   (chain_start (FromPrivateKey privateKeyBase64) s)).
  { revert Hid. unfold identity_of, decoded_key, chain_start.
    destruct (uint8ArrayFromString_fn privateKeyBase64 "base64")
      as [e|b] eqn:Hb; [discriminate|].
    destruct (privateKeyFromProtobuf_fn b) as [e|keypair] eqn:Hk;
      [discriminate|].
    destruct (is_Ed25519 (key_type keypair)) eqn:Ht; [|discriminate].
    intros [= <-].
    unfold resolve_via_identity, deriveIdentity.
    unfold bind at 1. unfold bind at 1.
    unfold uint8ArrayFromString, call_pure. rewrite Hb. simpl.
    unfold bind at 1, privateKeyFromProtobuf, call_pure. rewrite Hk. simpl.
    unfold bind at 1. rewrite Ht. unfold ret at 1.
    unfold getIPNSNameFromKeypair, peerIdFromPrivateKey_toCID_toString,
      call_pure. simpl. reflexivity. }
  split; [|split].
  - rewrite Hvia, Hrun, public_reaches_chain, chains_agree. reflexivity.
  - exact Hvia.
  - apply chains_agree.
Qed.

End ResolveProperties.

(* ================================================================= *)
(** ** Properties of publishing *)

Section PublishProperties.

Context {O : Objects} {P : Platform O}.

(** Unfold a service body down to the oracle calls. *)
Ltac expose :=
  cbv [updateIPNSRecord bind try_catch try_finally attempt settle assigned
       ret throw of_sum emit call_pure call_world call_observed console
       createHeliaHTTP uint8ArrayFromString privateKeyFromProtobuf CID_parse
       getIPNSNameFromKeypair peerIdFromPrivateKey_toCID_toString Date_now
       createIPNSRecord marshalIPNSRecord toMultihash
       multihashToIPNSRoutingKey routing_put stop world trace].

(** Every publish call settles normally, and starts by asking for a
    Helia node. *)
Lemma updateIPNSRecord_returns (ipfsHash privateKeyBase64 : string)
    (s : state O) :
  exists r s' c rest,
    updateIPNSRecord ipfsHash privateKeyBase64 s = (Normal r, s') /\
    trace s' = trace s ++ createHeliaHTTP_ c :: rest.
Proof.
  destruct s as [w tr]. expose. repeat split_call.
  all: do 4 eexists; split; [reflexivity|]; cbn [trace];
    rewrite <- ?app_assoc; cbn [app]; reflexivity.
Qed.


(** C3, as the code has it.  Whatever the arguments, a record reaches
    [helia.routing.put] only if [createIPNSRecord] returned it and
    [marshalIPNSRecord] turned it into the bytes that are put, both in
    this call.  When [CID.parse] throws on the content hash, the call
    returns [success = false] and neither signs nor puts anything; its
    error is the parser's when the steps before the parse went through
    (the Helia node was created, the key decoded to an Ed25519 key), and
    the error of the first of those steps that failed otherwise. *)
Theorem publish_rejects_malformed_hash :
  forall (ipfsHash privateKeyBase64 : string) (s : state O),
  exists r s' evs,
    updateIPNSRecord ipfsHash privateKeyBase64 s = (Normal r, s') /\
    trace s' = trace s ++ evs /\
    (forall routingKey marshaledRecord,
       In (routingKey, marshaledRecord) (published evs) ->
       exists k cid sequenceNumber lifetime ttlNs record,
         In (createIPNSRecord_ k cid sequenceNumber lifetime ttlNs
               (inr record)) evs /\
         marshalIPNSRecord_fn record = inr marshaledRecord) /\
    (forall e, CID_parse_fn ipfsHash = inl e ->
       upd_success r = false /\
       forallb (fun ev => negb (signs_or_publishes ev)) evs = true /\
       (forall h w1 b keypair,
          createHeliaHTTP_oracle (world s) = (inr h, w1) ->
          uint8ArrayFromString_fn privateKeyBase64 "base64" = inr b ->
          privateKeyFromProtobuf_fn b = inr keypair ->
          is_Ed25519 (key_type keypair) = true ->
          upd_error r = Some (message_or "Unknown IPNS update error" e)) /\
       (forall created w1,
          createHeliaHTTP_oracle (world s) = (created, w1) ->
          upd_error r =
          Some (message_or "Unknown IPNS update error"
                  (error_on_malformed_hash created privateKeyBase64 e)))).
Proof.
  intros ipfsHash privateKeyBase64 [w tr].
  expose. repeat split_call.
  all: do 3 eexists; split; [reflexivity|]; cbn [trace];
    rewrite <- ?app_assoc; cbn [app]; (split; [reflexivity|]).
  all: split;
    [ cbn; intros routingKey marshaledRecord Hin;
      first
        [ contradiction
        | destruct Hin as [Hin|[]]; injection Hin as <- <-;
          do 6 eexists; (split; [|eassumption]);
          cbn; subst; auto 20 ]
    | intros e He; cbn; try congruence;
      repeat split; intros; subst; cbn in *;
      try match goal with
          | Hc : (_, _) = (?created, _) |- _ => injection Hc as <- <-
          end;
      unfold error_on_malformed_hash;
      repeat match goal with
             | H : ?x = _ |- context [?x] => rewrite H
             end;
      first [reflexivity | congruence] ].
Qed.

(** C5, as the code has it.  For a key that decodes to an algorithm
    other than Ed25519: [resolveIPNSFromPrivateKey] resolves to
    [success = false] with the error
    ["Only libp2p Ed25519 keys are supported"] after decoding the key
    and nothing else; [updateIPNSRecord] resolves to [success = false]
    without a name, and between opening its Helia node and stopping it
    it computes no peer id, signs nothing, puts nothing and fetches
    nothing; its error is the same message when the node was created,
    and the error of [createHeliaHTTP] when that call threw. *)
Theorem unsupported_key_type_is_rejected :
  forall (privateKeyBase64 ipfsHash : string) (s : state O)
         (b : bytes) (keypair : PrivateKey),
    uint8ArrayFromString_fn privateKeyBase64 "base64" = inr b ->
    privateKeyFromProtobuf_fn b = inr keypair ->
    is_Ed25519 (key_type keypair) = false ->
    resolveIPNSFromPrivateKey privateKeyBase64 s =
      (Normal (mkIPNSResolveResult false None None
                 (Some "Only libp2p Ed25519 keys are supported")),
       mkState (world s)
         (trace s ++
          [uint8ArrayFromString_ privateKeyBase64 "base64";
           privateKeyFromProtobuf_ b;
           console_ error_level
             [arg_string "❌ IPNS resolve failed:";
              arg_thrown
                (ErrorObj "Only libp2p Ed25519 keys are supported")]]))
    /\ exists r s' evs,
         updateIPNSRecord ipfsHash privateKeyBase64 s = (Normal r, s') /\
         trace s' = trace s ++ evs /\
         upd_success r = false /\
         upd_ipnsName r = None /\
         forallb (fun ev => negb (touches_key_or_network ev)) evs = true /\
         (forall h w1,
            createHeliaHTTP_oracle (world s) = (inr h, w1) ->
            upd_error r = Some "Only libp2p Ed25519 keys are supported" /\
            exists logged,
              evs =
                [ createHeliaHTTP_ (inr h);
                  uint8ArrayFromString_ privateKeyBase64 "base64";
                  privateKeyFromProtobuf_ b;
                  console_ error_level
                    [arg_string "❌ IPNS update failed:";
                     arg_thrown
                       (ErrorObj "Only libp2p Ed25519 keys are supported")];
                  stop_ h ] ++ logged /\
              forallb is_console logged = true) /\
         (forall e w1,
            createHeliaHTTP_oracle (world s) = (inl e, w1) ->
            upd_error r = Some (message_or "Unknown IPNS update error" e) /\
            evs =
              [ createHeliaHTTP_ (inl e);
                console_ error_level
                  [arg_string "❌ IPNS update failed:"; arg_thrown e] ]).
Proof.
  intros privateKeyBase64 ipfsHash [w tr] b keypair Hb Hk Ht. split.
  - cbv [resolveIPNSFromPrivateKey bind try_catch uint8ArrayFromString
         privateKeyFromProtobuf call_pure of_sum emit ret throw console
         world trace].
    rewrite Hb, Hk, Ht. cbn. rewrite <- !app_assoc. reflexivity.
  - expose. rewrite Hb, Hk, Ht. repeat split_call.
    all: do 3 eexists; split; [reflexivity|]; cbn [trace];
      rewrite <- ?app_assoc; cbn [app]; (split; [reflexivity|]).
    all: cbn; do 3 (split; [reflexivity|]); split.
    all: intros ? ? Hc; try discriminate Hc; injection Hc as <- <-;
      (split; [reflexivity|]); try reflexivity;
      eexists; split; reflexivity.
Qed.

Lemma clock_readings_app (a b : list (event O)) :
  clock_readings (a ++ b) = clock_readings a ++ clock_readings b.
Proof.
  induction a as [|ev a IH]; simpl; [reflexivity|].
  destruct ev; simpl; rewrite ?IH; reflexivity.
Qed.

Lemma signed_sequences_app (a b : list (event O)) :
  signed_sequences (a ++ b) = signed_sequences a ++ signed_sequences b.
Proof.
  induction a as [|ev a IH]; simpl; [reflexivity|].
  destruct ev; simpl; rewrite ?IH; reflexivity.
Qed.

Lemma published_app (a b : list (event O)) :
  published (a ++ b) = published a ++ published b.
Proof.
  induction a as [|ev a IH]; simpl; [reflexivity|].
  destruct ev; simpl; rewrite ?IH; reflexivity.
Qed.

(** A publish call that succeeds read the clock once, signed one record
    with that reading as its sequence number, and put one record. *)
Lemma publish_signs_with_clock (ipfsHash privateKeyBase64 : string)
    (s : state O) :
  exists r s' evs,
    updateIPNSRecord ipfsHash privateKeyBase64 s = (Normal r, s') /\
    trace s' = trace s ++ evs /\
    (upd_success r = true ->
     exists now,
       clock_readings evs = [now] /\
       signed_sequences evs = [now] /\
       length (published evs) = 1%nat).
Proof.
  destruct s as [w tr]. expose. repeat split_call.
  all: do 3 eexists; split; [reflexivity|]; cbn [trace];
    rewrite <- ?app_assoc; cbn [app]; (split; [reflexivity|]).
  all: cbn; intros Hok; try discriminate;
    eexists; repeat split.
Qed.

(** Two publish calls in a row under the same key that both succeed
    signed their records with the two values that [Date.now()]
    returned, one reading per call, and put both records. *)
Lemma sequence_numbers_are_clock_readings :
  forall (ipfsHash1 ipfsHash2 privateKeyBase64 : string)
         (s s1 s2 : state O) (r1 r2 : IPNSUpdateResult),
    updateIPNSRecord ipfsHash1 privateKeyBase64 s = (Normal r1, s1) ->
    updateIPNSRecord ipfsHash2 privateKeyBase64 s1 = (Normal r2, s2) ->
    upd_success r1 = true ->
    upd_success r2 = true ->
    exists evs first_reading second_reading,
      trace s2 = trace s ++ evs /\
      clock_readings evs = [first_reading; second_reading] /\
      signed_sequences evs = [first_reading; second_reading] /\
      length (published evs) = 2%nat.
Proof.
  intros ipfsHash1 ipfsHash2 privateKeyBase64 s s1 s2 r1 r2 H1 H2 Hok1 Hok2.
  destruct (publish_signs_with_clock ipfsHash1 privateKeyBase64 s)
    as (r1' & s1' & evs1 & Hrun1 & Htr1 & Hsucc1).
  rewrite H1 in Hrun1. injection Hrun1 as <- <-.
  destruct (publish_signs_with_clock ipfsHash2 privateKeyBase64 s1)
    as (r2' & s2' & evs2 & Hrun2 & Htr2 & Hsucc2).
  rewrite H2 in Hrun2. injection Hrun2 as <- <-.
  destruct (Hsucc1 Hok1) as (now1 & Hc1 & Hs1 & Hp1).
  destruct (Hsucc2 Hok2) as (now2 & Hc2 & Hs2 & Hp2).
  exists (evs1 ++ evs2), now1, now2.
  rewrite Htr2, Htr1, <- app_assoc.
  rewrite clock_readings_app, signed_sequences_app, published_app.
  rewrite Hc1, Hc2, Hs1, Hs2, length_app, Hp1, Hp2.
  repeat split.
Qed.

(** C9.  Upload, then publish if configured.  When the upload callback
    rejects, so does the call, and nothing else runs.  When it resolves
    to [ipfsResult], [updateIPNSRecord] runs exactly when the result
    has [success = true], a non-empty [ipfsHash], and the
    [ipnsPrivateKey] field of the environment config is a non-empty
    string: then the call resolves to [ipfsResult] together with the
    result of [updateIPNSRecord] on that hash and the string in that
    field, and a session was started; otherwise it resolves to
    [ipfsResult] alone, in the state the upload left, so that nothing
    was signed or published. *)
Theorem update_runs_iff_uploaded_and_configured :
  forall (config : json) (environmentName : string)
         (environmentConfig : option EnvironmentConfig)
         (quickNodeApiKey : string)
         (uploadToIPFS : json -> string -> option string -> M O IpfsResult)
         (s : state O),
    let run := uploadAndUpdateIPNS config environmentName environmentConfig
                 quickNodeApiKey uploadToIPFS s in
    match uploadToIPFS config environmentName (Some quickNodeApiKey) s with
    | (Throw e, s1) => run = (Throw e, s1)
    | (Normal r, s1) =>
        let field :=
          match environmentConfig with
          | Some cfg => ipnsPrivateKey cfg
          | None => None
          end in
        let wanted :=
          ipfs_success r && truthy_opt_string (ipfs_ipfsHash r)
          && truthy_opt_string field in
        exists evs,
          trace (snd run) = trace s1 ++ evs /\
          existsb starts_session evs = wanted /\
          if wanted then
            exists hash privateKey ipnsResult s2,
              ipfs_ipfsHash r = Some hash /\
              field = Some privateKey /\
              updateIPNSRecord hash privateKey s1
                = (Normal ipnsResult, s2) /\
              run = (Normal (mkUploadAndUpdate r (Some ipnsResult)), s2)
          else
            run = (Normal (mkUploadAndUpdate r None), s1)
    end.
Proof.
  intros config environmentName environmentConfig quickNodeApiKey
         uploadToIPFS s run.
  destruct (uploadToIPFS config environmentName (Some quickNodeApiKey) s)
    as [[r|e] s1] eqn:Hup;
    subst run; unfold uploadAndUpdateIPNS, bind; rewrite Hup;
    [|reflexivity].
  unfold getIPNSPrivateKeyFromConfig.
  destruct (ipfs_success r); cbn [andb];
    [|exists []; rewrite app_nil_r; repeat split].
  destruct (ipfs_ipfsHash r) as [hash|]; cbn [truthy_opt_string andb];
    [|exists []; rewrite app_nil_r; repeat split].
  destruct (truthy_string hash); cbn [andb];
    [|exists []; rewrite app_nil_r; repeat split].
  destruct environmentConfig as [cfg|];
    [|exists []; rewrite app_nil_r; repeat split].
  destruct (ipnsPrivateKey cfg) as [privateKey|];
    cbn [truthy_opt_string];
    [|exists []; rewrite app_nil_r; repeat split].
  destruct (truthy_string privateKey);
    [|exists []; rewrite app_nil_r; repeat split].
  destruct (updateIPNSRecord_returns hash privateKey s1)
    as (u & s2 & c & rest & Hrun & Htr).
  unfold ret. rewrite Hrun. cbn [snd].
  exists (createHeliaHTTP_ c :: rest). split; [exact Htr|].
  split; [reflexivity|].
  exists hash, privateKey, u, s2. repeat split. exact Hrun.
Qed.

End PublishProperties.

(* ================================================================= *)
(** ** Properties of uploading *)

Section UploadProperties.

Context {O : Objects} {P : Platform O}.

Lemma getQuickNodeApiKey_present (apiKey : string) :
  truthy_string apiKey = true ->
  getQuickNodeApiKey (Some apiKey) = inr apiKey.
Proof. intros H. unfold getQuickNodeApiKey. rewrite H. reflexivity. Qed.

(** Reading a property off a truthy value does not throw. *)
Lemma get_property_truthy (v : jsval) (key : string) :
  truthy v = true -> exists p, get_property v key = inr p.
Proof.
  destruct v as [[| | | | |]|]; simpl; intros H; try discriminate;
    eexists; reflexivity.
Qed.

(** What [findPinnedObjectByName] hands back as [object] is truthy, and
    comes without an error. *)
Lemma findPinnedObjectByName_object fileName key (s s1 : state O) found :
  findPinnedObjectByName fileName key s = (Normal found, s1) ->
  forall obj, object found = Some obj ->
    truthy (Some obj) = true /\ truthy_opt_string (object_error found) = false.
Proof.
  unfold findPinnedObjectByName, try_catch, bind.
  destruct (getAllPinnedObjects key s) as [[listed|e] s0].
  - destruct (truthy_opt_string (objects_error listed)).
    + cbn. intros [= <- <-] obj Hobj. discriminate.
    + unfold settle.
      destruct (find_by_name fileName (objects listed)) as [e|foundObject];
        cbn.
      * intros [= <- <-] obj Hobj. discriminate.
      * intros [= <- <-] obj. cbn.
        destruct (truthy foundObject) eqn:Ht; [|discriminate].
        intros ->. split; [exact Ht|reflexivity].
  - cbn. intros [= <- <-] obj Hobj. discriminate.
Qed.

(** What an array search hands back is an object, hence truthy. *)
Lemma array_find_by_name_truthy fileName items obj :
  array_find_by_name fileName items = inr (Some obj) ->
  truthy (Some obj) = true.
Proof.
  induction items as [|item items IH]; simpl; [discriminate|].
  unfold name_is.
  destruct item as [| | | | |members]; simpl; try exact IH;
    try discriminate.
  destruct (lookup_member "name" members) as [[| | |n| |]|]; try exact IH.
  destruct (String.eqb n fileName); [|exact IH].
  intros [= <-]. reflexivity.
Qed.


(** The upload after the lookup.  Let [found] be what
    [findPinnedObjectByName] returns for the file name.  If [found]
    carries an object, the DELETE request for that object's
    [requestId] is the next request; when it is answered with an ok
    response, the POST of the new content follows it, and when it
    throws or is answered with a response that is not ok, the call
    resolves to [success = false] and no POST is sent.  If [found]
    carries no object, the next and only request is the POST.  The call
    itself never rejects. *)
Lemma upload_after_lookup :
  forall (config : json) (environmentName apiKey : string)
         (s s1 : state O) (found : FoundObject),
    truthy_string apiKey = true ->
    let fileName := ("env-" ++ environmentName ++ ".json")%string in
    findPinnedObjectByName fileName (Some apiKey) s = (Normal found, s1) ->
    let upload_request :=
      mkRequest "https://api.quicknode.com/ipfs/rest/v1/s3/put-object"
        "POST" [("x-api-key", apiKey)]
        (Some (mkFormData (JSON_stringify_fn config 2) "application/json"
                          fileName fileName "application/json")) in
    exists r s',
      uploadConfigToIPFS config environmentName (Some apiKey) s
        = (Normal r, s') /\
      match object found with
      | Some existingObject =>
          exists requestId,
            get_property (Some existingObject) "requestId" = inr requestId /\
            let delete_request :=
              mkRequest
                ("https://api.quicknode.com/ipfs/rest/v1/pinning/"
                 ++ ToString_fn requestId)%string
                "DELETE" [("x-api-key", apiKey)] None in
            match fst (fetch_oracle delete_request (world s1)) with
            | inr response =>
                if ok response then
                  requests (trace s') =
                  requests (trace s1) ++ [delete_request; upload_request]
                else
                  up_success r = false /\
                  requests (trace s') =
                  requests (trace s1) ++ [delete_request]
            | inl _ =>
                up_success r = false /\
                requests (trace s') = requests (trace s1) ++ [delete_request]
            end
      | None =>
          requests (trace s') = requests (trace s1) ++ [upload_request]
      end.
Proof.
  intros config environmentName apiKey s s1 found Hkey fileName Hfind
         upload_request.
  pose proof (findPinnedObjectByName_object _ _ _ _ _ Hfind) as Hobj.
  unfold uploadConfigToIPFS. unfold try_catch at 1. unfold bind at 1.
  unfold settle at 1. rewrite (getQuickNodeApiKey_present _ Hkey).
  cbn [of_sum]. unfold bind at 1. fold fileName. rewrite Hfind.
  destruct found as [[existingObject|] findError]; cbn [object object_error] in *.
  - destruct (Hobj _ eq_refl) as [Htruthy Hnoerr]. rewrite Hnoerr, Htruthy.
    destruct (get_property_truthy _ "requestId" Htruthy) as [requestId Hrid].
    destruct s1 as [w1 tr1].
    cbv [bind try_catch settle ret throw of_sum emit console fetch
         call_world deletePinnedObject world trace].
    rewrite Hrid, (getQuickNodeApiKey_present _ Hkey).
    cbn [of_sum].
    repeat split_call.
    all: do 2 eexists; (split; [reflexivity|]); exists requestId;
      (split; [reflexivity|]); cbn [fst];
      repeat match goal with
             | H : fetch_oracle _ _ = _ |- _ => rewrite H; clear H
             end; cbn [fst]; subst;
      repeat match goal with
             | H : negb (ok ?resp) = _ |- _ =>
                 destruct (ok resp); cbn in H; try discriminate; clear H
             end.
    all: cbn [trace up_success]; rewrite ?requests_app; cbn;
      rewrite <- ?app_assoc; try discriminate;
      repeat split; try reflexivity; try discriminate.
  - destruct s1 as [w1 tr1].
    cbv [bind try_catch settle ret throw of_sum emit console fetch
         call_world world trace truthy].
    repeat split_call.
    all: do 2 eexists; (split; [reflexivity|]).
    all: cbn [trace]; rewrite ?requests_app; cbn;
      rewrite <- ?app_assoc, ?app_nil_r; reflexivity.
Qed.

(** [obj.name === fileName] holds of the entries named [fileName], and
    of no others. *)
Lemma name_is_named fileName entry :
  name_is fileName entry = inr true -> named fileName entry.
Proof.
  unfold name_is, named.
  destruct entry as [| | | | |members]; cbn; try discriminate.
  destruct (lookup_member "name" members) as [[| | |n| |]|] eqn:Hname;
    try discriminate.
  destruct (String.eqb n fileName) eqn:Heq; [|discriminate].
  apply String.eqb_eq in Heq. subst n. intros _.
  exists members. split; [reflexivity|exact Hname].
Qed.

Lemma named_name_is fileName entry :
  named fileName entry -> name_is fileName entry = inr true.
Proof.
  intros (members & -> & Hname). unfold name_is. cbn.
  rewrite Hname, String.eqb_refl. reflexivity.
Qed.

Lemma passed_over_name_is fileName entry :
  passed_over fileName entry -> name_is fileName entry = inr false.
Proof.
  intros [Hnull Hnot].
  destruct (name_is fileName entry) as [e|[|]] eqn:Hn; [| |reflexivity].
  - destruct entry as [| | | | |members]; cbn in Hn; try discriminate.
    + elim Hnull. reflexivity.
    + destruct (lookup_member "name" members) as [[| | | | |]|];
        discriminate.
  - elim Hnot. exact (name_is_named _ _ Hn).
Qed.

Lemma name_is_passed_over fileName entry :
  name_is fileName entry = inr false -> passed_over fileName entry.
Proof.
  intros Hn. split.
  - intros ->. discriminate.
  - intros Hnamed. rewrite (named_name_is _ _ Hnamed) in Hn. discriminate.
Qed.


Lemma array_find_by_name_none fileName items :
  Forall (passed_over fileName) items ->
  array_find_by_name fileName items = inr None.
Proof.
  induction 1 as [|item items Hitem _ IH]; cbn; [reflexivity|].
  rewrite (passed_over_name_is _ _ Hitem). exact IH.
Qed.

(** And what the search returns is such a first entry. *)
Lemma array_find_by_name_origin fileName items obj :
  array_find_by_name fileName items = inr (Some obj) ->
  exists before after,
    items = before ++ obj :: after /\
    Forall (passed_over fileName) before /\
    named fileName obj.
Proof.
  induction items as [|item items IH]; cbn; [discriminate|].
  destruct (name_is fileName item) as [e|[|]] eqn:Hn; [discriminate| |].
  - intros [= <-]. exists [], items.
    split; [reflexivity|]. split; [constructor|].
    exact (name_is_named _ _ Hn).
  - intros Hfind. destruct (IH Hfind) as (before & after & -> & Hb & Hnamed).
    exists (item :: before), after.
    split; [reflexivity|]. split; [|exact Hnamed].
    constructor; [exact (name_is_passed_over _ _ Hn)|exact Hb].
Qed.



(** A path of the lookup that ends without an object. *)
Ltac no_object :=
  cbn;
  repeat match goal with
         | |- context [if ?b then _ else _] => destruct b; cbn
         end;
  eexists; (split; [reflexivity|]); cbn; discriminate.

(** Where the object that the lookup returns comes from: the listing
    request was answered with an ok response whose JSON is, or holds
    under [data], an array, and the object is the first entry of that
    array with the name searched for, every entry before it being
    readable and named otherwise. *)
Lemma lookup_origin (fileName apiKey : string) (s : state O)
    (reply : thrown + Response) (w1 : World O) :
  truthy_string apiKey = true ->
  fetch_oracle (listing_request apiKey) (world s) = (reply, w1) ->
  exists found,
    findPinnedObjectByName fileName (Some apiKey) s =
      (Normal found,
       mkState w1 (trace s ++ [fetch_ (listing_request apiKey)])) /\
    forall obj, object found = Some obj ->
      exists response result before after,
        reply = inr response /\ ok response = true /\
        body_json response = inr result /\
        listing_array result (before ++ obj :: after) /\
        Forall (passed_over fileName) before /\
        named fileName obj.
Proof.
  intros Hkey Hfetch. destruct s as [w tr]. cbn [world] in Hfetch.
  unfold listing_request in *.
  cbv [findPinnedObjectByName getAllPinnedObjects bind try_catch settle
       ret throw of_sum fetch call_world world trace].
  rewrite (getQuickNodeApiKey_present _ Hkey), Hfetch.
  destruct reply as [e|response]; [no_object|].
  destruct (ok response) eqn:Hok; cbn [negb];
    [|destruct (text response); no_object].
  destruct (body_json response) as [e|result] eqn:Hjson; [no_object|].
  destruct (js_or (get_property (Some result) "data") (inr (Some result)))
    as [e|held] eqn:Hheld; [no_object|].
  cbn [objects objects_error truthy_opt_string].
  assert (Hlist : forall items,
             held = Some (JArray items) -> listing_array result items).
  { intros items ->. unfold js_or in Hheld.
    destruct result as [| | | |items'|members]; cbn in Hheld;
      try discriminate.
    - injection Hheld as <-. left. reflexivity.
    - destruct (truthy (lookup_member "data" members)) eqn:Ht.
      + injection Hheld as Hdata. right. exists members.
        split; [reflexivity|exact Hdata].
      + discriminate. }
  destruct held as [[| | | |items|members]|]; try no_object.
  cbn [truthy find_by_name].
  destruct (array_find_by_name fileName items) as [e|[obj|]] eqn:Hfind;
    try no_object.
  cbn [of_sum]. rewrite (array_find_by_name_truthy _ _ _ Hfind).
  eexists. split; [reflexivity|]. cbn. intros obj' [= <-].
  destruct (array_find_by_name_origin _ _ _ Hfind)
    as (before & after & -> & Hbefore & Hnamed).
  exists response, result, before, after.
  repeat split; try assumption; try reflexivity.
  apply Hlist. reflexivity.
Qed.

End UploadProperties.

(* ================================================================= *)
(** ** Concrete runs on the scripted platform *)

(** The private-key entry when ipfs.io answers 504 and Cloudflare
    carries the header, and the public entry when ipfs.io carries it. *)
Lemma resolve_first_success_wins_witness :
  (exists s2,
     resolve (P := Script.platform) (FromPrivateKey "e-demo-key")
       (Script.start
          (Script.calm
             [Script.plain_reply false 504 "" (inr JNull);
              Script.roots_reply "  bafydemo "]))
     = (Normal (mkIPNSResolveResult true (Some "bafydemo")
                  (Some "k51-demo-key") None), s2)
     /\ fetched_urls (trace s2) =
        [ "https://ipfs.io/ipns/k51-demo-key";
          "https://cloudflare-ipfs.com/ipns/k51-demo-key" ])
  /\ (exists s2,
        resolve (P := Script.platform) (FromPublicKey "k51demo")
          (Script.start (Script.calm [Script.roots_reply "bafyfirst"]))
        = (Normal (mkIPNSResolveResult true (Some "bafyfirst")
                     (Some "k51demo") None), s2)
        /\ fetched_urls (trace s2) = [ "https://ipfs.io/ipns/k51demo" ])
  /\ Forall2 (asks (P := Script.platform))
       (chain_of (P := Script.platform) (FromPublicKey "k51demo") "k51demo")
       [ "https://ipfs.io/ipns/k51demo";
         "https://cloudflare-ipfs.com/ipns/k51demo" ].
Proof.
  split; [|split].
  - eexists.
    eapply (proj2 (resolve_first_success_wins (P := Script.platform)
              (FromPrivateKey "e-demo-key") "k51-demo-key"
              (Script.start
                 (Script.calm
                    [Script.plain_reply false 504 "" (inr JNull);
                     Script.roots_reply "  bafydemo "]))
              eq_refl) 1%nat).
    + eapply all_fail_cons; [reflexivity|apply all_fail_nil].
    + reflexivity.
    + reflexivity.
  - eexists.
    eapply (proj2 (resolve_first_success_wins (P := Script.platform)
              (FromPublicKey "k51demo") "k51demo"
              (Script.start (Script.calm [Script.roots_reply "bafyfirst"]))
              eq_refl) 0%nat).
    + apply all_fail_nil.
    + reflexivity.
    + reflexivity.
  - exact (proj1 (resolve_first_success_wins (P := Script.platform)
              (FromPublicKey "k51demo") "k51demo"
              (Script.start (Script.calm [])) eq_refl)).
Defined.

(** No gateway can be reached: both strategies throw, and the public
    entry resolves to the aggregated failure. *)
Lemma resolve_exhausted_witness :
  exists s',
    resolve (P := Script.platform) (FromPublicKey "k51demo")
      (Script.start (Script.calm []))
    = (Normal (mkIPNSResolveResult false None (Some "k51demo")
                 (Some "All resolution methods failed")), s').
Proof.
  edestruct (resolve_exhausted (P := Script.platform)
               (FromPublicKey "k51demo") "k51demo"
               (Script.start (Script.calm []))) as [Hrun _].
  - reflexivity.
  - eapply all_fail_cons; [reflexivity|].
    eapply all_fail_cons; [reflexivity|].
    apply all_fail_nil.
  - eexists. exact Hrun.
Defined.

Lemma private_entry_refines_public_witness :
  resolveIPNSFromPrivateKey (P := Script.platform) "e-demo-key"
    (Script.start (Script.calm [Script.roots_reply "bafydemo"]))
  = resolve_via_identity (P := Script.platform) "e-demo-key"
      (Script.start (Script.calm [Script.roots_reply "bafydemo"])).
Proof.
  exact (proj1 (private_entry_refines_public (P := Script.platform)
                  "e-demo-key" "k51-demo-key"
                  (Script.start (Script.calm [Script.roots_reply "bafydemo"]))
                  eq_refl)).
Defined.

(** A malformed hash under an Ed25519 key: the parser's error comes
    back. *)
Lemma publish_rejects_malformed_hash_witness :
  exists r s',
    updateIPNSRecord (P := Script.platform) "not-a-cid" "e-demo-key"
      (Script.start (Script.calm [])) = (Normal r, s')
    /\ upd_success r = false
    /\ upd_error r = Some "Invalid CID"
    /\ published (trace s') = [].
Proof.
  destruct (publish_rejects_malformed_hash (P := Script.platform)
              "not-a-cid" "e-demo-key" (Script.start (Script.calm [])))
    as (r & s' & evs & Hrun & Htr & Hput & Hbad).
  destruct (Hbad (ErrorObj "Invalid CID") eq_refl)
    as (Hfalse & Hquiet & Herr & _).
  exists r, s'. split; [exact Hrun|]. split; [exact Hfalse|].
  split.
  - exact (Herr 0%nat _ _ _ eq_refl eq_refl eq_refl eq_refl).
  - vm_compute in Hrun. injection Hrun as <- <-. reflexivity.
Defined.

(** An RSA key: rejected by both functions. *)
Lemma unsupported_key_type_is_rejected_witness :
  fst (resolveIPNSFromPrivateKey (P := Script.platform) "r-demo-key"
         (Script.start (Script.calm [])))
  = Normal (mkIPNSResolveResult false None None
              (Some "Only libp2p Ed25519 keys are supported")).
Proof.
  rewrite (proj1 (unsupported_key_type_is_rejected (P := Script.platform)
                    "r-demo-key" "bafydemo" (Script.start (Script.calm []))
                    _ _ eq_refl eq_refl eq_refl)).
  reflexivity.
Defined.


(** An upload that succeeds under a config that holds a key: the record
    is published under that key; under a config without a key, or with
    the empty string as key, nothing is published. *)
Lemma update_runs_iff_uploaded_and_configured_witness :
  (exists s2,
     uploadAndUpdateIPNS (P := Script.platform) JNull "prod"
       (Some (mkEnvironmentConfig "k51-demo-key" (Some "e-demo-key")))
       "api-key"
       (fun _ _ _ => ret (mkIpfsResult true (Some "bafydemo") None))
       (Script.start (Script.calm []))
     = (Normal (mkUploadAndUpdate
                  (mkIpfsResult true (Some "bafydemo") None)
                  (Some (mkIPNSUpdateResult true (Some "k51-demo-key")
                           None))), s2)
     /\ length (published (trace s2)) = 1%nat)
  /\ uploadAndUpdateIPNS (P := Script.platform) JNull "prod"
       (Some (mkEnvironmentConfig "k51demo" None)) "api-key"
       (fun _ _ _ => ret (mkIpfsResult true (Some "bafydemo") None))
       (Script.start (Script.calm []))
     = (Normal (mkUploadAndUpdate
                  (mkIpfsResult true (Some "bafydemo") None) None),
        Script.start (Script.calm []))
  /\ uploadAndUpdateIPNS (P := Script.platform) JNull "prod"
       (Some (mkEnvironmentConfig "k51demo" (Some ""))) "api-key"
       (fun _ _ _ => ret (mkIpfsResult true (Some "bafydemo") None))
       (Script.start (Script.calm []))
     = (Normal (mkUploadAndUpdate
                  (mkIpfsResult true (Some "bafydemo") None) None),
        Script.start (Script.calm [])).
Proof.
  split; [|split].
  - destruct (update_runs_iff_uploaded_and_configured
                (P := Script.platform) JNull "prod"
                (Some (mkEnvironmentConfig "k51-demo-key"
                         (Some "e-demo-key")))
                "api-key"
                (fun _ _ _ => ret (mkIpfsResult true (Some "bafydemo") None))
                (Script.start (Script.calm [])))
      as (evs & _ & _ & hash & privateKey & ipnsResult & s2
          & Hhash & Hkey & Hupd & Hrun).
    cbn in Hhash, Hkey. injection Hhash as <-. injection Hkey as <-.
    vm_compute in Hupd. injection Hupd as <- <-.
    eexists. split; [exact Hrun|reflexivity].
  - destruct (update_runs_iff_uploaded_and_configured
                (P := Script.platform) JNull "prod"
                (Some (mkEnvironmentConfig "k51demo" None)) "api-key"
                (fun _ _ _ => ret (mkIpfsResult true (Some "bafydemo") None))
                (Script.start (Script.calm [])))
      as (evs & _ & _ & Hrun).
    exact Hrun.
  - destruct (update_runs_iff_uploaded_and_configured
                (P := Script.platform) JNull "prod"
                (Some (mkEnvironmentConfig "k51demo" (Some ""))) "api-key"
                (fun _ _ _ => ret (mkIpfsResult true (Some "bafydemo") None))
                (Script.start (Script.calm [])))
      as (evs & _ & _ & Hrun).
    exact Hrun.
Defined.

(** C3, counterexample.  A content hash that does not parse, under an
    RSA key: the call fails with the key-type error, not with the
    parser's. *)
Lemma malformed_hash_under_rsa_key_reports_the_key :
  CID_parse_fn (Platform := Script.platform) "not-a-cid"
    = inl (ErrorObj "Invalid CID")
  /\ fst (updateIPNSRecord (P := Script.platform) "not-a-cid" "r-demo-key"
            (Script.start (Script.calm [])))
     = Normal (mkIPNSUpdateResult false None
                 (Some "Only libp2p Ed25519 keys are supported"))
  /\ Some "Only libp2p Ed25519 keys are supported" <> Some "Invalid CID".
Proof.
  split; [reflexivity|]. split; [reflexivity|]. discriminate.
Qed.


(** C5, counterexample.  An RSA key while Helia cannot start:
    [updateIPNSRecord] fails with Helia's error, not with the key-type
    error. *)
Lemma rsa_key_without_helia_reports_helia :
  key_type (mkPrivateKey (mkPublicKey RSA (list_byte_of_string "-demo-key"))
                         (list_byte_of_string "-demo-key")) = RSA
  /\ privateKeyFromProtobuf_fn (Platform := Script.platform)
       (list_byte_of_string "r-demo-key")
     = inr (mkPrivateKey (mkPublicKey RSA (list_byte_of_string "-demo-key"))
                         (list_byte_of_string "-demo-key"))
  /\ fst (updateIPNSRecord (P := Script.platform) "bafydemo" "r-demo-key"
            (Script.start
               (Script.mkWorld 1700000000000 1 [] false true 0)))
     = Normal (mkIPNSUpdateResult false None
                 (Some "Helia failed to start"))
  /\ Some "Helia failed to start"
     <> Some "Only libp2p Ed25519 keys are supported".
Proof.
  split; [reflexivity|]. split; [reflexivity|]. split; [reflexivity|].
  discriminate.
Qed.

(* ================================================================= *)
(** ** Further properties of resolving *)

Section ResolveContracts.

Context {O : Objects} {P : Platform O}.

(** Unfold the two resolve functions down to the oracle calls. *)
Ltac expose_resolve :=
  cbv [resolve resolveIPNSFromPublicKey resolveIPNSFromPrivateKey
       resolveIPNSFromPublicKey_resolutionMethods
       resolveIPNSFromPrivateKey_resolutionMethods
       identity_of decoded_key accepted_roots head_request
       for_of bind try_catch ret throw of_sum emit call_pure call_world
       console fetch uint8ArrayFromString privateKeyFromProtobuf
       getIPNSNameFromKeypair peerIdFromPrivateKey_toCID_toString
       world trace].

(** Resolving never rejects, and its result has one of two shapes: a
    success with a hash and a name and no error, or a failure with an
    error and no hash. *)
Theorem resolve_settles_with_hash_or_error :
  forall (c : resolve_call) (s : state O),
  exists r s',
    resolve c s = (Normal r, s') /\
    ((success r = true /\ (exists h, ipfsHash r = Some h) /\
      (exists name, ipnsName r = Some name) /\ error r = None)
     \/ (success r = false /\ ipfsHash r = None /\
         exists msg, error r = Some msg)).
Proof.
  intros [ipnsPublicKey|privateKeyBase64] [w tr]; expose_resolve;
    repeat split_call.
  all: do 2 eexists; split; [reflexivity|]; cbn.
  all: first
    [ left; repeat split; eexists; reflexivity
    | right; repeat split; eexists; reflexivity ].
Qed.

(** The calls and requests of a resolve, on each of its paths. *)
Lemma resolve_footprint :
  forall (c : resolve_call) (s : state O),
  exists r s' evs,
    resolve c s = (Normal r, s') /\
    trace s' = trace s ++ evs /\
    forallb resolve_step evs = true /\
    match identity_of c with
    | Some name =>
        (requests evs =
           [head_request ("https://ipfs.io/ipns/" ++ name)%string]
         /\ success r = true)
        \/ requests evs =
             [head_request ("https://ipfs.io/ipns/" ++ name)%string;
              head_request ("https://cloudflare-ipfs.com/ipns/" ++ name)%string]
    | None => requests evs = [] /\ success r = false
    end.
Proof.
  intros [ipnsPublicKey|privateKeyBase64] [w tr]; expose_resolve;
    repeat split_call.
  all: do 3 eexists; split; [reflexivity|]; cbn [trace];
    rewrite <- ?app_assoc; cbn [app]; (split; [reflexivity|]);
    (split; [reflexivity|]); cbn.
  all: first
    [ left; split; reflexivity
    | right; reflexivity
    | split; reflexivity ].
Qed.

(** What a resolve does to the outside: besides decoding the key and
    logging, it sends HEAD requests without headers or body and nothing
    else.  The first request goes to the ipfs.io gateway.  When its
    answer is accepted the call succeeds with the header of that answer
    and no second request is sent; the Cloudflare gateway is asked
    exactly when the answer of ipfs.io is not accepted.  A private-key
    call whose key does not give a name sends nothing. *)
Theorem resolve_asks_only_the_gateways :
  forall (c : resolve_call) (s : state O),
  exists r s' evs,
    resolve c s = (Normal r, s') /\
    trace s' = trace s ++ evs /\
    forallb resolve_step evs = true /\
    match identity_of c with
    | Some name =>
        let first := head_request ("https://ipfs.io/ipns/" ++ name)%string in
        let second :=
          head_request ("https://cloudflare-ipfs.com/ipns/" ++ name)%string in
        match accepted_roots (fst (fetch_oracle first (world s))) with
        | Some h =>
            requests evs = [first] /\
            r = mkIPNSResolveResult true (Some h) (Some name) None
        | None => requests evs = [first; second]
        end
    | None => requests evs = [] /\ success r = false
    end.
Proof.
  intros [ipnsPublicKey|privateKeyBase64] [w tr]; expose_resolve;
    cbv [fst]; repeat split_call.
  all: do 3 eexists; split; [reflexivity|]; cbn [trace];
    rewrite <- ?app_assoc; cbn [app]; (split; [reflexivity|]);
    (split; [reflexivity|]); cbn.
  all: repeat split.
Qed.

(** The result of resolving a name is decided by the answers of the two
    gateways: the trimmed header of ipfs.io's answer when that answer is
    accepted; otherwise the trimmed header of Cloudflare's answer when
    that one is accepted; otherwise the aggregated failure. *)
Theorem resolution_is_decided_by_the_gateway_answers :
  forall (ipnsPublicKey : string) (s : state O)
         (reply1 reply2 : thrown + Response) (w1 w2 : World O),
    fetch_oracle (head_request ("https://ipfs.io/ipns/" ++ ipnsPublicKey)%string)
                 (world s) = (reply1, w1) ->
    fetch_oracle
      (head_request ("https://cloudflare-ipfs.com/ipns/" ++ ipnsPublicKey)%string)
      w1 = (reply2, w2) ->
    fst (resolveIPNSFromPublicKey ipnsPublicKey s) =
    Normal
      match accepted_roots reply1 with
      | Some h => mkIPNSResolveResult true (Some h) (Some ipnsPublicKey) None
      | None =>
          match accepted_roots reply2 with
          | Some h =>
              mkIPNSResolveResult true (Some h) (Some ipnsPublicKey) None
          | None =>
              mkIPNSResolveResult false None (Some ipnsPublicKey)
                (Some "All resolution methods failed")
          end
      end
    /\ world (snd (resolveIPNSFromPublicKey ipnsPublicKey s)) =
       match accepted_roots reply1 with
       | Some _ => w1
       | None => w2
       end.
Proof.
  intros ipnsPublicKey [w tr] reply1 reply2 w1 w2 H1 H2.
  expose_resolve. cbv [head_request world] in H1, H2.
  cbn in H1, H2 |- *. rewrite H1.
  destruct reply1 as [e1|resp1]; cbn.
  - rewrite H2. destruct reply2 as [e2|resp2]; cbn; [split; reflexivity|].
    destruct (ok resp2); [|split; reflexivity].
    destruct (headers_get resp2 "X-Ipfs-Roots") as [h2|];
      [|split; reflexivity].
    destruct (truthy_string h2); split; reflexivity.
  - destruct (ok resp1);
      [destruct (headers_get resp1 "X-Ipfs-Roots") as [h1|];
       [destruct (truthy_string h1); [split; reflexivity|]|]|].
    all: cbn; rewrite H2; destruct reply2 as [e2|resp2]; cbn;
      [split; reflexivity|];
      (destruct (ok resp2); [|split; reflexivity]);
      (destruct (headers_get resp2 "X-Ipfs-Roots") as [h2|];
       [|split; reflexivity]);
      destruct (truthy_string h2); split; reflexivity.
Qed.

Lemma trimStart_all_whitespace (h : string) :
  all_whitespace h = true -> trimStart h = EmptyString.
Proof.
  induction h as [|c h IH]; simpl; [reflexivity|].
  destruct (is_js_whitespace c); simpl; [exact IH|discriminate].
Qed.

(** The header value is not checked for being a content hash: an ok
    answer of the first gateway whose [X-Ipfs-Roots] header is not empty
    but holds white space only makes the call succeed with the empty
    string as [ipfsHash]. *)
Theorem blank_header_resolves_to_an_empty_hash :
  forall (ipnsPublicKey : string) (s : state O) (response : Response)
         (w1 : World O) (ipfsRoots : string),
    fetch_oracle (head_request ("https://ipfs.io/ipns/" ++ ipnsPublicKey)%string)
                 (world s) = (inr response, w1) ->
    ok response = true ->
    headers_get response "X-Ipfs-Roots" = Some ipfsRoots ->
    truthy_string ipfsRoots = true ->
    all_whitespace ipfsRoots = true ->
    fst (resolveIPNSFromPublicKey ipnsPublicKey s) =
    Normal (mkIPNSResolveResult true (Some "") (Some ipnsPublicKey) None).
Proof.
  intros ipnsPublicKey [w tr] response w1 ipfsRoots Hfetch Hok Hget Hne Hws.
  expose_resolve. cbv [head_request world] in Hfetch.
  cbn in Hfetch |- *. rewrite Hfetch. cbn. rewrite Hok, Hget, Hne. cbn.
  unfold trim. rewrite (trimStart_all_whitespace _ Hws). reflexivity.
Qed.

End ResolveContracts.

(* ================================================================= *)
(** ** Further properties of publishing *)

Section PublishContracts.

Context {O : Objects} {P : Platform O}.

(** Unfold [updateIPNSRecord] down to the oracle calls. *)
Ltac expose_publish :=
  cbv [updateIPNSRecord bind try_catch try_finally attempt settle assigned
       ret throw of_sum emit call_pure call_world call_observed console
       createHeliaHTTP uint8ArrayFromString privateKeyFromProtobuf CID_parse
       getIPNSNameFromKeypair peerIdFromPrivateKey_toCID_toString Date_now
       createIPNSRecord marshalIPNSRecord toMultihash
       multihashToIPNSRoutingKey routing_put stop world trace].

(** Every path of a publish call, with what a success went through. *)
Lemma publish_paths (ipfsHash privateKeyBase64 : string) (s : state O) :
  exists r s' evs,
    updateIPNSRecord ipfsHash privateKeyBase64 s = (Normal r, s') /\
    trace s' = trace s ++ evs /\
    (length (signed evs) <= 1)%nat /\
    (length (published evs) <= 1)%nat /\
    (upd_success r = false ->
       upd_ipnsName r = None /\ exists msg, upd_error r = Some msg) /\
    (upd_success r = true ->
       exists h b keypair cid now record marshaled logged,
         uint8ArrayFromString_fn privateKeyBase64 "base64" = inr b /\
         privateKeyFromProtobuf_fn b = inr keypair /\
         is_Ed25519 (key_type keypair) = true /\
         CID_parse_fn ipfsHash = inr cid /\
         marshalIPNSRecord_fn record = inr marshaled /\
         r = mkIPNSUpdateResult true
               (Some (peerId_base36_fn (publicKey keypair))) None /\
         evs =
           [ createHeliaHTTP_ (inr h);
             uint8ArrayFromString_ privateKeyBase64 "base64";
             privateKeyFromProtobuf_ b;
             CID_parse_ ipfsHash;
             peerIdFromPrivateKey_ keypair;
             Date_now_ now;
             createIPNSRecord_ keypair cid now 31536000000 60000000000
               (inr record);
             marshalIPNSRecord_ record;
             toMultihash_ (publicKey keypair);
             multihashToIPNSRoutingKey_ (toMultihash_fn (publicKey keypair));
             routing_put_ h
               (multihashToIPNSRoutingKey_fn
                  (toMultihash_fn (publicKey keypair)))
               marshaled;
             stop_ h ] ++ logged /\
         forallb is_console logged = true).
Proof.
  destruct s as [w tr]. expose_publish. repeat split_call.
  all: do 3 eexists; split; [reflexivity|]; cbn [trace];
    rewrite <- ?app_assoc; cbn [app]; (split; [reflexivity|]).
  all: cbn [signed published length upd_success upd_ipnsName upd_error];
    (split; [auto|]); (split; [auto|]); split;
    intros Hs; try discriminate Hs.
  all: try (split; [reflexivity|eexists; reflexivity]).
  all: do 8 eexists; repeat (split; [eassumption || reflexivity|]);
    reflexivity.
Qed.

(** What a successful publish is made of: the key decoded to an Ed25519
    key and the hash parsed; the result carries the peer id of the key;
    and the calls were, in this order, one signature over that key and
    that CID with the clock reading as sequence number, a lifetime of
    one year in milliseconds and a TTL of one minute in nanoseconds, and
    one put of the marshaled record under the routing key of the public
    key's multihash, on the Helia node that is stopped afterwards. *)
Theorem successful_publish_contents :
  forall (ipfsHash privateKeyBase64 : string) (s s' : state O)
         (r : IPNSUpdateResult),
    updateIPNSRecord ipfsHash privateKeyBase64 s = (Normal r, s') ->
    upd_success r = true ->
    exists h b keypair cid now record marshaled logged,
      uint8ArrayFromString_fn privateKeyBase64 "base64" = inr b /\
      privateKeyFromProtobuf_fn b = inr keypair /\
      is_Ed25519 (key_type keypair) = true /\
      CID_parse_fn ipfsHash = inr cid /\
      marshalIPNSRecord_fn record = inr marshaled /\
      r = mkIPNSUpdateResult true
            (Some (peerId_base36_fn (publicKey keypair))) None /\
      trace s' = trace s ++
        [ createHeliaHTTP_ (inr h);
          uint8ArrayFromString_ privateKeyBase64 "base64";
          privateKeyFromProtobuf_ b;
          CID_parse_ ipfsHash;
          peerIdFromPrivateKey_ keypair;
          Date_now_ now;
          createIPNSRecord_ keypair cid now 31536000000 60000000000
            (inr record);
          marshalIPNSRecord_ record;
          toMultihash_ (publicKey keypair);
          multihashToIPNSRoutingKey_ (toMultihash_fn (publicKey keypair));
          routing_put_ h
            (multihashToIPNSRoutingKey_fn
               (toMultihash_fn (publicKey keypair)))
            marshaled;
          stop_ h ] ++ logged /\
      forallb is_console logged = true.
Proof.
  intros ipfsHash privateKeyBase64 s s' r Hrun Hok.
  destruct (publish_paths ipfsHash privateKeyBase64 s)
    as (r0 & s0 & evs & Hrun0 & Htr & _ & _ & _ & Hsucc).
  rewrite Hrun in Hrun0. injection Hrun0 as <- <-.
  destruct (Hsucc Hok)
    as (h & b & keypair & cid & now & record & marshaled & logged &
        Hb & Hk & Ht & Hc & Hm & Hr & Hevs & Hlog).
  exists h, b, keypair, cid, now, record, marshaled, logged.
  rewrite Htr, Hevs. repeat split; assumption.
Qed.

(** A publish call signs at most one record and puts at most one; its
    result is a success with a name and no error, after exactly one
    put, or a failure with an error and no name. *)
Theorem publish_settles_with_name_or_error :
  forall (ipfsHash privateKeyBase64 : string) (s : state O),
  exists r s' evs,
    updateIPNSRecord ipfsHash privateKeyBase64 s = (Normal r, s') /\
    trace s' = trace s ++ evs /\
    (length (signed evs) <= 1)%nat /\
    (length (published evs) <= 1)%nat /\
    ((upd_success r = true /\ (exists name, upd_ipnsName r = Some name) /\
      upd_error r = None /\ length (published evs) = 1%nat)
     \/ (upd_success r = false /\ upd_ipnsName r = None /\
         exists msg, upd_error r = Some msg)).
Proof.
  intros ipfsHash privateKeyBase64 s.
  destruct (publish_paths ipfsHash privateKeyBase64 s)
    as (r & s' & evs & Hrun & Htr & Hsigned & Hput & Hfail & Hsucc).
  exists r, s', evs. repeat (split; [assumption|]).
  destruct (upd_success r) eqn:Hs.
  - left. destruct (Hsucc eq_refl)
      as (h & b & keypair & cid & now & record & marshaled & logged &
          _ & _ & _ & _ & _ & Hr & Hevs & Hlog).
    subst r. split; [reflexivity|]. split; [eexists; reflexivity|].
    split; [reflexivity|]. rewrite Hevs.
    clear - Hlog. cbn. f_equal.
    induction logged as [|ev logged IH]; [reflexivity|].
    cbn in Hlog. destruct ev; try discriminate; exact (IH Hlog).
  - right. destruct (Hfail eq_refl) as [Hname Herr].
    repeat split; assumption.
Qed.

(** Publishing and resolving agree on the name: the name that a
    successful publish reports for a key is the name under which
    [resolveIPNSFromPrivateKey] asks the gateways for that key. *)
Theorem published_name_is_the_resolved_name :
  forall (ipfsHash privateKeyBase64 : string) (s s' : state O)
         (r : IPNSUpdateResult),
    updateIPNSRecord ipfsHash privateKeyBase64 s = (Normal r, s') ->
    upd_success r = true ->
    exists name,
      upd_ipnsName r = Some name /\
      identity_of (FromPrivateKey privateKeyBase64) = Some name /\
      forall s0 : state O,
        exists r0 s0' evs,
          resolveIPNSFromPrivateKey privateKeyBase64 s0 = (Normal r0, s0') /\
          trace s0' = trace s0 ++ evs /\
          map req_url (firstn 1 (requests evs)) =
            [("https://ipfs.io/ipns/" ++ name)%string].
Proof.
  intros ipfsHash privateKeyBase64 s s' r Hrun Hok.
  destruct (publish_paths ipfsHash privateKeyBase64 s)
    as (r0 & s0 & evs & Hrun0 & Htr & _ & _ & _ & Hsucc).
  rewrite Hrun in Hrun0. injection Hrun0 as <- <-.
  destruct (Hsucc Hok)
    as (h & b & keypair & cid & now & record & marshaled & logged &
        Hb & Hk & Ht & _ & _ & Hr & _ & _).
  exists (peerId_base36_fn (publicKey keypair)).
  assert (Hid : identity_of (FromPrivateKey privateKeyBase64) =
                Some (peerId_base36_fn (publicKey keypair))).
  { unfold identity_of, decoded_key. rewrite Hb, Hk, Ht. reflexivity. }
  split; [subst r; reflexivity|]. split; [exact Hid|].
  intros s1.
  destruct (resolve_footprint (FromPrivateKey privateKeyBase64) s1)
    as (r1 & s1' & evs1 & Hrun1 & Htr1 & _ & Hreq).
  exists r1, s1', evs1. split; [exact Hrun1|]. split; [exact Htr1|].
  rewrite Hid in Hreq. destruct Hreq as [[Hreq _]|Hreq]; rewrite Hreq;
    reflexivity.
Qed.

End PublishContracts.

(* ================================================================= *)
(** ** Failures of publishing and of decoding the key *)

Section PublishFailures.

Context {O : Objects} {P : Platform O}.

Ltac expose_publish :=
  cbv [updateIPNSRecord bind try_catch try_finally attempt settle assigned
       ret throw of_sum emit call_pure call_world call_observed console
       createHeliaHTTP uint8ArrayFromString privateKeyFromProtobuf CID_parse
       getIPNSNameFromKeypair peerIdFromPrivateKey_toCID_toString Date_now
       createIPNSRecord marshalIPNSRecord toMultihash
       multihashToIPNSRoutingKey routing_put stop world trace].

(** A key that cannot be decoded (bad base64, or bytes that are no
    protobuf key): [resolveIPNSFromPrivateKey] resolves to a failure
    carrying the decoder's message, without a name and without any
    request; [updateIPNSRecord] resolves to a failure without a name,
    computes no peer id, signs nothing and puts nothing, and carries the
    decoder's message whenever its Helia node was created. *)
Theorem undecodable_key_is_rejected :
  forall (privateKeyBase64 ipfsHash : string) (s : state O) (e : thrown),
    decoding_error privateKeyBase64 = Some e ->
    (exists s' evs,
       resolveIPNSFromPrivateKey privateKeyBase64 s =
         (Normal (mkIPNSResolveResult false None None
                    (Some (message_or "Unknown IPNS resolve error" e))), s')
       /\ trace s' = trace s ++ evs /\ requests evs = [])
    /\ exists r s' evs,
         updateIPNSRecord ipfsHash privateKeyBase64 s = (Normal r, s') /\
         trace s' = trace s ++ evs /\
         upd_success r = false /\
         upd_ipnsName r = None /\
         forallb (fun ev => negb (touches_key_or_network ev)) evs = true /\
         (forall h w1,
            createHeliaHTTP_oracle (world s) = (inr h, w1) ->
            upd_error r = Some (message_or "Unknown IPNS update error" e)).
Proof.
  intros privateKeyBase64 ipfsHash [w tr] e. unfold decoding_error.
  intros He. split.
  - cbv [resolveIPNSFromPrivateKey bind try_catch uint8ArrayFromString
         privateKeyFromProtobuf call_pure of_sum emit ret throw console
         world trace].
    destruct (uint8ArrayFromString_fn privateKeyBase64 "base64") as [e0|b].
    + injection He as ->. do 2 eexists. split; [reflexivity|].
      cbn [trace]. rewrite <- app_assoc. split; reflexivity.
    + destruct (privateKeyFromProtobuf_fn b) as [e0|k]; [|discriminate].
      injection He as ->. do 2 eexists. split; [reflexivity|].
      cbn [trace]. rewrite <- !app_assoc. split; reflexivity.
  - expose_publish.
    destruct (uint8ArrayFromString_fn privateKeyBase64 "base64") as [e0|b].
    + injection He as ->. repeat split_call.
      all: do 3 eexists; split; [reflexivity|]; cbn [trace];
        rewrite <- ?app_assoc; cbn [app]; (split; [reflexivity|]).
      all: cbn; do 3 (split; [reflexivity|]).
      all: intros ? ? Hc; try discriminate Hc; reflexivity.
    + destruct (privateKeyFromProtobuf_fn b) as [e0|k]; [|discriminate].
      injection He as ->. repeat split_call.
      all: do 3 eexists; split; [reflexivity|]; cbn [trace];
        rewrite <- ?app_assoc; cbn [app]; (split; [reflexivity|]).
      all: cbn; do 3 (split; [reflexivity|]).
      all: intros ? ? Hc; try discriminate Hc; reflexivity.
Qed.

(** A publish whose put is refused: when every step up to the put went
    through and [helia.routing.put] throws, the call resolves to a
    failure carrying what the routing threw, and reports no name
    although the name was computed; the record was handed to the routing
    once, and the Helia node is stopped. *)
Theorem refused_put_is_reported :
  forall (ipfsHash privateKeyBase64 : string) (s : state O)
         (h : Helia O) (b : bytes) (keypair : PrivateKey) (cid : CID O)
         (now : Z) (record : IPNSRecord O) (marshaled : bytes)
         (e : thrown) (w1 w2 w3 w4 : World O),
    createHeliaHTTP_oracle (world s) = (inr h, w1) ->
    uint8ArrayFromString_fn privateKeyBase64 "base64" = inr b ->
    privateKeyFromProtobuf_fn b = inr keypair ->
    is_Ed25519 (key_type keypair) = true ->
    CID_parse_fn ipfsHash = inr cid ->
    Date_now_oracle w1 = (now, w2) ->
    createIPNSRecord_oracle keypair cid now 31536000000 60000000000 w2
      = (inr record, w3) ->
    marshalIPNSRecord_fn record = inr marshaled ->
    routing_put_oracle h
      (multihashToIPNSRoutingKey_fn (toMultihash_fn (publicKey keypair)))
      marshaled w3 = (inl e, w4) ->
    exists s' evs,
      updateIPNSRecord ipfsHash privateKeyBase64 s =
        (Normal (mkIPNSUpdateResult false None
                   (Some (message_or "Unknown IPNS update error" e))), s')
      /\ trace s' = trace s ++ evs
      /\ published evs =
           [(multihashToIPNSRoutingKey_fn (toMultihash_fn (publicKey keypair)),
             marshaled)]
      /\ last_call evs = Some (stop_ h).
Proof.
  intros ipfsHash privateKeyBase64 [w tr] h b keypair cid now record
         marshaled e w1 w2 w3 w4 Hh Hb Hk Ht Hc Hn Hr Hm Hp.
  cbn [world] in Hh.
  expose_publish.
  rewrite Hh, Hb, Hk, Ht, Hc, Hn.
  change (DEFAULT_TTL_MS * 1000000)%Z with 60000000000%Z.
  change DEFAULT_LIFETIME_MS with 31536000000%Z.
  rewrite Hr, Hm, Hp.
  repeat split_call.
  all: do 2 eexists; split; [reflexivity|]; cbn [trace];
    rewrite <- ?app_assoc; cbn [app]; (split; [reflexivity|]);
    split; reflexivity.
Qed.

End PublishFailures.

(* ================================================================= *)
(** ** Further properties of uploading *)

Section UploadContracts.

Context {O : Objects} {P : Platform O}.

(** Unfold the upload service down to the oracle calls, keeping the
    operators on parsed JSON folded. *)
Ltac expose_upload :=
  cbv [uploadConfigToIPFS findPinnedObjectByName getAllPinnedObjects
       deletePinnedObject getQuickNodeApiKey
       listing_request delete_request upload_request api_key_required
       bind try_catch settle ret throw of_sum emit console fetch call_world
       truthy_opt_string show_opt_string
       object object_error objects objects_error del_success del_error
       up_success up_ipfsHash up_error world trace].

(** Without an API key ([undefined] or the empty string) none of the
    four functions calls anything: each resolves at once to its failure
    value with the message of [getQuickNodeApiKey]. *)
Theorem missing_api_key_stops_every_call :
  forall (quickNodeApiKey : option string) (config : json)
         (environmentName fileName : string) (requestId : jsval)
         (s : state O),
    truthy_opt_string quickNodeApiKey = false ->
    uploadConfigToIPFS config environmentName quickNodeApiKey s =
      (Normal (mkUploadResult false None (Some api_key_required)), s)
    /\ getAllPinnedObjects quickNodeApiKey s =
      (Normal (mkPinnedObjects (JArray []) (Some api_key_required)), s)
    /\ findPinnedObjectByName fileName quickNodeApiKey s =
      (Normal (mkFoundObject None (Some api_key_required)), s)
    /\ deletePinnedObject requestId quickNodeApiKey s =
      (Normal (mkDeleteResult false (Some api_key_required)), s).
Proof.
  intros [k|] config environmentName fileName requestId s Hkey;
    cbn in Hkey; expose_upload; rewrite ?Hkey; repeat split.
Qed.

(** An entry that the array search returns has the name searched for. *)
Lemma array_find_by_name_sound fileName items obj :
  array_find_by_name fileName items = inr (Some obj) ->
  name_is fileName obj = inr true.
Proof.
  induction items as [|item items IH]; simpl; [discriminate|].
  destruct (name_is fileName item) as [e|[|]] eqn:Hn;
    [discriminate| |exact IH].
  intros [= <-]. exact Hn.
Qed.

(** The listing, on each of its paths. *)
Lemma listing_paths (apiKey : string) (s : state O)
    (reply : thrown + Response) (w1 : World O) :
  truthy_string apiKey = true ->
  fetch_oracle (listing_request apiKey) (world s) = (reply, w1) ->
  exists listed,
    getAllPinnedObjects (Some apiKey) s =
      (Normal listed,
       mkState w1 (trace s ++ [fetch_ (listing_request apiKey)])) /\
    (forall msg, objects_error listed = Some msg ->
       objects listed = JArray []) /\
    (objects_error listed = None ->
       exists response result,
         reply = inr response /\ ok response = true /\
         body_json response = inr result /\ result <> JNull).
Proof.
  intros Hkey Hfetch. destruct s as [w tr]. cbn [world] in Hfetch.
  unfold listing_request in *.
  expose_upload. rewrite Hkey, Hfetch.
  repeat split_call.
  all: eexists; split; [reflexivity|]; cbn; split;
    [ intros msg Hmsg; first [reflexivity | discriminate Hmsg]
    | intros Hnone; try discriminate Hnone ].
  all: subst; do 2 eexists; repeat split; try eassumption;
    try (destruct (ok _); [reflexivity|discriminate]);
    intros ->; discriminate.
Qed.

(** The lookup, on each of its paths. *)
Lemma lookup_paths (fileName apiKey : string) (s : state O)
    (reply : thrown + Response) (w1 : World O) :
  truthy_string apiKey = true ->
  fetch_oracle (listing_request apiKey) (world s) = (reply, w1) ->
  exists found,
    findPinnedObjectByName fileName (Some apiKey) s =
      (Normal found,
       mkState w1 (trace s ++ [fetch_ (listing_request apiKey)])) /\
    (forall obj, object found = Some obj ->
       name_is fileName obj = inr true /\
       truthy (Some obj) = true /\
       object_error found = None) /\
    (forall msg, object_error found = Some msg -> object found = None).
Proof.
  intros Hkey Hfetch.
  destruct (listing_paths apiKey s reply w1 Hkey Hfetch)
    as (listed & Hrun & _ & _).
  unfold findPinnedObjectByName, try_catch, bind. rewrite Hrun.
  destruct (truthy_opt_string (objects_error listed)).
  - eexists. split; [reflexivity|]. cbn. split; [discriminate|reflexivity].
  - unfold settle.
    destruct (find_by_name fileName (objects listed))
      as [e|foundObject] eqn:Hfind; cbn.
    + eexists. split; [reflexivity|]. cbn.
      split; [discriminate|reflexivity].
    + eexists. split; [reflexivity|]. cbn.
      split; [|discriminate].
      intros obj. destruct (truthy foundObject) eqn:Ht; [|discriminate].
      intros ->. unfold find_by_name in Hfind.
      destruct (objects listed); try discriminate.
      split; [exact (array_find_by_name_sound _ _ _ Hfind)|].
      split; [exact Ht|reflexivity].
Qed.

(** The deletion, on each of its paths. *)
Lemma delete_paths (requestId : jsval) (apiKey : string) (s : state O)
    (reply : thrown + Response) (w1 : World O) :
  truthy_string apiKey = true ->
  fetch_oracle (delete_request apiKey requestId) (world s) = (reply, w1) ->
  exists deleted,
    deletePinnedObject requestId (Some apiKey) s =
      (Normal deleted,
       mkState w1 (trace s ++ [fetch_ (delete_request apiKey requestId)])) /\
    del_success deleted =
      match reply with
      | inr response => ok response
      | inl _ => false
      end /\
    (del_success deleted = false -> exists msg, del_error deleted = Some msg).
Proof.
  intros Hkey Hfetch. destruct s as [w tr]. cbn [world] in Hfetch.
  unfold delete_request in *.
  expose_upload. rewrite Hkey, Hfetch.
  repeat split_call.
  all: eexists; split; [reflexivity|]; cbn; subst; split;
    [ try reflexivity;
      match goal with
      | H : negb (ok ?r) = _ |- _ = ok ?r =>
          first [ destruct (ok r); [reflexivity|discriminate H]
                | destruct (ok r); [discriminate H|reflexivity] ]
      end
    | intros Hd; try discriminate Hd; eexists; reflexivity ].
Qed.

(** After the lookup and the deletion, if any: the POST and the reading
    of its answer. *)
Ltac finish_upload :=
  repeat split_call;
  do 3 eexists; (split; [reflexivity|]); cbn [trace];
  rewrite <- ?app_assoc; cbn [app]; (split; [reflexivity|]);
  (split; [reflexivity|]); cbn;
  (split;
   [ first
       [ right; repeat split; eexists; reflexivity
       | left; repeat split;
         match goal with
         | H : negb (truthy ?v) = false |- truthy ?v = true =>
             destruct (truthy v); [reflexivity|discriminate H]
         end ]
   | ]).

(** Every path of an upload with an API key. *)
Lemma upload_paths (config : json) (environmentName apiKey : string)
    (s : state O) :
  truthy_string apiKey = true ->
  exists r s' evs,
    uploadConfigToIPFS config environmentName (Some apiKey) s
      = (Normal r, s') /\
    trace s' = trace s ++ evs /\
    forallb upload_step evs = true /\
    ((up_success r = true /\ truthy (up_ipfsHash r) = true /\
      up_error r = None)
     \/ (up_success r = false /\ up_ipfsHash r = None /\
         exists msg, up_error r = Some msg)) /\
    (requests evs =
       [listing_request apiKey;
        upload_request apiKey config environmentName]
     \/ exists requestId,
          (requests evs =
             [listing_request apiKey; delete_request apiKey requestId]
           /\ up_success r = false)
          \/ requests evs =
               [listing_request apiKey; delete_request apiKey requestId;
                upload_request apiKey config environmentName]).
Proof.
  intros Hkey.
  destruct (fetch_oracle (listing_request apiKey) (world s))
    as [reply w1] eqn:Hl.
  destruct (lookup_paths ("env-" ++ environmentName ++ ".json")%string
              apiKey s reply w1 Hkey Hl) as (found & Hfind & Hobj & _).
  unfold uploadConfigToIPFS. unfold try_catch at 1. unfold bind at 1.
  unfold settle at 1. rewrite (getQuickNodeApiKey_present _ Hkey).
  cbn [of_sum]. unfold bind at 1. rewrite Hfind.
  destruct s as [w tr]. cbn [trace] in *.
  destruct found as [[obj|] findError]; cbn [object object_error] in *.
  - destruct (Hobj obj eq_refl) as (_ & Htruthy & Hnoerr). subst findError.
    destruct (get_property_truthy _ "requestId" Htruthy) as [rid Hrid].
    destruct (fetch_oracle (delete_request apiKey rid) w1)
      as [dreply w2] eqn:Hd.
    cbv [bind try_catch settle ret throw of_sum emit console fetch
         call_world truthy_opt_string show_opt_string world trace].
    rewrite Htruthy, Hrid.
    match goal with
    | |- context [deletePinnedObject ?a ?b ?st] =>
        destruct (delete_paths a apiKey st dreply w2 Hkey Hd)
          as (deleted & Hdel & _ & _); rewrite Hdel
    end.
    destruct deleted as [[|] deleteError]; cbn [del_success del_error negb].
    + finish_upload.
      all: right; exists rid; right; reflexivity.
    + do 3 eexists. split; [reflexivity|]. cbn [trace].
      rewrite <- ?app_assoc. cbn [app]. split; [reflexivity|].
      split; [reflexivity|]. cbn.
      split; [right; repeat split; eexists; reflexivity|].
      right. exists rid. left. split; reflexivity.
  - change (truthy (@None json)) with false.
    cbv [bind try_catch settle ret throw of_sum emit console fetch
         call_world truthy_opt_string show_opt_string world trace].
    finish_upload.
    all: left; reflexivity.
Qed.

(** The upload, told from the answer to its listing request. *)
Lemma upload_by_lookup (config : json) (environmentName apiKey : string)
    (s : state O) (reply : thrown + Response) (w1 : World O) :
  truthy_string apiKey = true ->
  let fileName := ("env-" ++ environmentName ++ ".json")%string in
  fetch_oracle (listing_request apiKey) (world s) = (reply, w1) ->
  exists found r s' evs,
    findPinnedObjectByName fileName (Some apiKey) s =
      (Normal found,
       mkState w1 (trace s ++ [fetch_ (listing_request apiKey)])) /\
    uploadConfigToIPFS config environmentName (Some apiKey) s
      = (Normal r, s') /\
    trace s' = trace s ++ evs /\
    (forall obj, object found = Some obj ->
       exists response result before after,
         reply = inr response /\ ok response = true /\
         body_json response = inr result /\
         listing_array result (before ++ obj :: after) /\
         Forall (passed_over fileName) before /\
         named fileName obj) /\
    match object found with
    | Some obj =>
        exists requestId,
          get_property (Some obj) "requestId" = inr requestId /\
          match fst (fetch_oracle (delete_request apiKey requestId) w1) with
          | inr answer =>
              if ok answer then
                requests evs =
                  [listing_request apiKey;
                   delete_request apiKey requestId;
                   upload_request apiKey config environmentName]
              else
                up_success r = false /\
                requests evs =
                  [listing_request apiKey; delete_request apiKey requestId]
          | inl _ =>
              up_success r = false /\
              requests evs =
                [listing_request apiKey; delete_request apiKey requestId]
          end
    | None =>
        requests evs =
          [listing_request apiKey;
           upload_request apiKey config environmentName]
    end.
Proof.
  intros Hkey fileName Hfetch.
  destruct (lookup_origin fileName apiKey s reply w1 Hkey Hfetch)
    as (found & Hfind & Horigin).
  destruct (upload_after_lookup config environmentName apiKey s _ found
              Hkey Hfind) as (r & s' & Hrun & Hcases).
  destruct (upload_paths config environmentName apiKey s Hkey)
    as (r0 & s0 & evs & Hrun0 & Htr & _).
  rewrite Hrun in Hrun0. injection Hrun0 as <- <-.
  exists found, r, s', evs.
  split; [exact Hfind|]. split; [exact Hrun|]. split; [exact Htr|].
  split; [exact Horigin|].
  rewrite Htr in Hcases. cbn [trace world] in Hcases.
  rewrite !requests_app in Hcases. cbn [requests app] in Hcases.
  destruct (object found) as [obj|].
  - destruct Hcases as (requestId & Hrid & Hdel).
    exists requestId. split; [exact Hrid|].
    unfold delete_request, upload_request, listing_request in *.
    destruct (fst (fetch_oracle _ w1)) as [e|answer];
      [|destruct (ok answer)].
    + destruct Hdel as [Hfail Hreq]. split; [exact Hfail|].
      rewrite <- app_assoc in Hreq. exact (app_inv_head _ _ _ Hreq).
    + rewrite <- app_assoc in Hdel. exact (app_inv_head _ _ _ Hdel).
    + destruct Hdel as [Hfail Hreq]. split; [exact Hfail|].
      rewrite <- app_assoc in Hreq. exact (app_inv_head _ _ _ Hreq).
  - unfold upload_request, listing_request in *.
    rewrite <- app_assoc in Hcases. exact (app_inv_head _ _ _ Hcases).
Qed.


(** The upload never rejects and only fetches and logs, with or without
    an API key; its result is a success with a truthy hash and no error,
    or a failure with an error and no hash. *)
Theorem upload_settles_with_hash_or_error :
  forall (config : json) (environmentName : string)
         (quickNodeApiKey : option string) (s : state O),
  exists r s' evs,
    uploadConfigToIPFS config environmentName quickNodeApiKey s
      = (Normal r, s') /\
    trace s' = trace s ++ evs /\
    forallb upload_step evs = true /\
    ((up_success r = true /\ truthy (up_ipfsHash r) = true /\
      up_error r = None)
     \/ (up_success r = false /\ up_ipfsHash r = None /\
         exists msg, up_error r = Some msg)).
Proof.
  intros config environmentName quickNodeApiKey s.
  destruct (truthy_opt_string quickNodeApiKey) eqn:Hkey.
  - destruct quickNodeApiKey as [apiKey|]; [|discriminate].
    destruct (upload_paths config environmentName apiKey s Hkey)
      as (r & s' & evs & Hrun & Htr & Hstep & Hshape & _).
    exists r, s', evs. repeat split; assumption.
  - exists (mkUploadResult false None (Some api_key_required)), s, [].
    split.
    + destruct quickNodeApiKey as [k|]; cbn in Hkey; expose_upload;
        rewrite ?Hkey; reflexivity.
    + rewrite app_nil_r. repeat split. right. repeat split.
      eexists. reflexivity.
Qed.

(** With an API key the upload sends two or three requests, each
    carrying the key: first the listing, and last the POST of the new
    content.  A DELETE is sent between them only when the listing
    request was answered with an ok response whose JSON is, or holds
    under [data], an array that holds an object named ["env-E.json"],
    and then it is the DELETE for the [requestId] of the first such
    object; the POST is left out exactly when that DELETE threw or was
    answered with a response that is not ok, and the call failed. *)
Theorem upload_sends_listing_then_delete_then_post :
  forall (config : json) (environmentName apiKey : string) (s : state O)
         (reply : thrown + Response) (w1 : World O),
    truthy_string apiKey = true ->
    let fileName := ("env-" ++ environmentName ++ ".json")%string in
    let listing := listing_request apiKey in
    let upload := upload_request apiKey config environmentName in
    fetch_oracle listing (world s) = (reply, w1) ->
    exists r s' evs,
      uploadConfigToIPFS config environmentName (Some apiKey) s
        = (Normal r, s') /\
      trace s' = trace s ++ evs /\
      (requests evs = [listing; upload]
       \/ exists response result before members after,
            reply = inr response /\
            ok response = true /\
            body_json response = inr result /\
            listing_array result (before ++ JObject members :: after) /\
            Forall (passed_over fileName) before /\
            lookup_member "name" members = Some (JString fileName) /\
            let delete :=
              delete_request apiKey (lookup_member "requestId" members) in
            match fst (fetch_oracle delete w1) with
            | inr answer =>
                if ok answer then requests evs = [listing; delete; upload]
                else up_success r = false /\ requests evs = [listing; delete]
            | inl _ =>
                up_success r = false /\ requests evs = [listing; delete]
            end).
Proof.
  intros config environmentName apiKey s reply w1 Hkey fileName listing
         upload Hfetch.
  destruct (upload_by_lookup config environmentName apiKey s reply w1
              Hkey Hfetch)
    as (found & r & s' & evs & _ & Hrun & Htr & Horigin & Hcases).
  exists r, s', evs. split; [exact Hrun|]. split; [exact Htr|].
  destruct found as [[obj|] findError]; cbn [object] in *;
    [|left; exact Hcases].
  right.
  destruct (Horigin obj eq_refl)
    as (response & result & before & after & Hr & Hok & Hjson & Hlist
        & Hbefore & (members & -> & Hname)).
  destruct Hcases as (requestId & Hrid & Hdel).
  cbn in Hrid. injection Hrid as <-.
  exists response, result, before, members, after.
  repeat (split; [assumption|]). exact Hdel.
Qed.

(** Content that was posted can still be reported as a failure: when
    nothing was found to delete, the POST is answered with an ok
    response, and no truthy hash can be read off its JSON, the call
    resolves to [success = false] with the response quoted in the error,
    although the POST was sent. *)
Theorem posted_content_without_hash_is_a_failure :
  forall (config : json) (environmentName apiKey : string)
         (s s1 : state O) (found : FoundObject) (response : Response)
         (w2 : World O) (result : json) (newCid : jsval),
    truthy_string apiKey = true ->
    findPinnedObjectByName ("env-" ++ environmentName ++ ".json")%string
      (Some apiKey) s = (Normal found, s1) ->
    object found = None ->
    fetch_oracle (upload_request apiKey config environmentName) (world s1)
      = (inr response, w2) ->
    ok response = true ->
    body_json response = inr result ->
    read_newCid result = inr newCid ->
    truthy newCid = false ->
    exists s',
      uploadConfigToIPFS config environmentName (Some apiKey) s =
        (Normal (mkUploadResult false None
                   (Some ("No IPFS hash returned from QuickNode upload. Response: "
                          ++ JSON_stringify_fn result 0)%string)), s')
      /\ In (fetch_ (upload_request apiKey config environmentName))
            (trace s').
Proof.
  intros config environmentName apiKey s s1 found response w2 result newCid
         Hkey Hfind Hnone Hpost Hok Hjson Hcid Hfalsy.
  unfold uploadConfigToIPFS. unfold try_catch at 1. unfold bind at 1.
  unfold settle at 1. rewrite (getQuickNodeApiKey_present _ Hkey).
  cbn [of_sum]. unfold bind at 1. rewrite Hfind.
  destruct found as [existingObject findError]. cbn in Hnone. subst.
  destruct s1 as [w1 tr1]. cbn [world] in Hpost.
  unfold upload_request in *.
  cbn [object object_error].
  change (truthy (@None json)) with false.
  cbv [bind try_catch settle ret throw of_sum emit console fetch
       call_world truthy_opt_string show_opt_string object object_error
       world trace].
  destruct findError as [msg|]; [destruct (truthy_string msg)|];
    cbn [world trace]; rewrite Hpost, Hok; cbn [negb]; rewrite Hjson;
    cbn [of_sum]; rewrite Hcid; cbn [of_sum]; rewrite Hfalsy; cbn [negb].
  all: eexists; split; [reflexivity|]; cbn [trace];
    rewrite !in_app_iff; cbn; tauto.
Qed.

(** The lookup returns an object only if its [name] is exactly the file
    name searched for, and then without an error; whenever it reports an
    error it returns no object. *)
Theorem lookup_returns_only_the_named_object :
  forall (fileName : string) (quickNodeApiKey : option string)
         (s s1 : state O) (found : FoundObject),
    findPinnedObjectByName fileName quickNodeApiKey s = (Normal found, s1) ->
    (forall obj, object found = Some obj ->
       name_is fileName obj = inr true /\ object_error found = None) /\
    (forall msg, object_error found = Some msg -> object found = None).
Proof.
  intros fileName quickNodeApiKey s s1 found Hrun.
  destruct (truthy_opt_string quickNodeApiKey) eqn:Hkey.
  - destruct quickNodeApiKey as [apiKey|]; [|discriminate].
    destruct (fetch_oracle (listing_request apiKey) (world s))
      as [reply w1] eqn:Hl.
    destruct (lookup_paths fileName apiKey s reply w1 Hkey Hl)
      as (found0 & Hrun0 & Hobj & Herr).
    rewrite Hrun in Hrun0. injection Hrun0 as <- _.
    split; [|exact Herr].
    intros obj Ho. destruct (Hobj obj Ho) as (Hn & _ & He). split; assumption.
  - assert (Hmissing : findPinnedObjectByName fileName quickNodeApiKey s =
              (Normal (mkFoundObject None (Some api_key_required)), s)).
    { destruct quickNodeApiKey as [k|]; cbn in Hkey; expose_upload;
        rewrite ?Hkey; reflexivity. }
    rewrite Hrun in Hmissing. injection Hmissing as -> _.
    split; [intros obj Ho; discriminate Ho|reflexivity].
Qed.

(** The deletion sends one DELETE request, for the request id as a
    template literal prints it, and succeeds exactly when that request
    is answered with an ok response; a failure always carries an
    error. *)
Theorem deletion_succeeds_iff_the_answer_is_ok :
  forall (requestId : jsval) (apiKey : string) (s : state O)
         (reply : thrown + Response) (w1 : World O),
    truthy_string apiKey = true ->
    fetch_oracle (delete_request apiKey requestId) (world s) = (reply, w1) ->
    exists deleted,
      deletePinnedObject requestId (Some apiKey) s =
        (Normal deleted,
         mkState w1
           (trace s ++ [fetch_ (delete_request apiKey requestId)])) /\
      del_success deleted =
        match reply with
        | inr response => ok response
        | inl _ => false
        end /\
      (del_success deleted = false ->
       exists msg, del_error deleted = Some msg).
Proof. exact delete_paths. Qed.

(** The listing sends one GET request for the first page of ten; when
    it reports an error its [objects] are the empty array, and it
    reports none only if the request was answered with an ok response
    whose body parsed to JSON other than [null]. *)
Theorem listing_reports_an_error_or_objects :
  forall (apiKey : string) (s : state O)
         (reply : thrown + Response) (w1 : World O),
    truthy_string apiKey = true ->
    fetch_oracle (listing_request apiKey) (world s) = (reply, w1) ->
    exists listed,
      getAllPinnedObjects (Some apiKey) s =
        (Normal listed,
         mkState w1 (trace s ++ [fetch_ (listing_request apiKey)])) /\
      (forall msg, objects_error listed = Some msg ->
         objects listed = JArray []) /\
      (objects_error listed = None ->
         exists response result,
           reply = inr response /\ ok response = true /\
           body_json response = inr result /\ result <> JNull).
Proof. exact listing_paths. Qed.

(** The status message never says ready: [getUploadStatusMessage] asks
    [isQuickNodeConfigured] without passing a key, so it answers that
    QuickNode is not configured for every environment. *)
Theorem status_message_is_always_not_configured :
  forall environmentName : string,
    getUploadStatusMessage environmentName =
    "QuickNode not configured. Please set quickNodeApiKey in _env section in config".
Proof. intros environmentName. reflexivity. Qed.

(** The earlier version of the upload sends one request, the same POST
    as the current version, and neither lists nor deletes; it never
    rejects, and succeeds only with a truthy hash. *)
Theorem earlier_upload_only_posts :
  forall (config : json) (environmentName apiKey : string) (s : state O)
         (reply : thrown + Response) (w1 : World O),
    truthy_string apiKey = true ->
    fetch_oracle (upload_request apiKey config environmentName) (world s)
      = (reply, w1) ->
    exists r,
      Earlier.uploadConfigToIPFS config environmentName (Some apiKey) s =
        (Normal r,
         mkState w1
           (trace s ++
            [fetch_ (upload_request apiKey config environmentName)])) /\
      ((up_success r = true /\ truthy (up_ipfsHash r) = true /\
        up_error r = None)
       \/ (up_success r = false /\ up_ipfsHash r = None /\
           exists msg, up_error r = Some msg)).
Proof.
  intros config environmentName apiKey [w tr] reply w1 Hkey Hpost.
  cbn [world] in Hpost. unfold upload_request in *.
  cbv [Earlier.uploadConfigToIPFS getQuickNodeApiKey bind try_catch settle
       ret throw of_sum emit fetch call_world world trace].
  rewrite Hkey, Hpost.
  repeat split_call.
  all: eexists; split; [reflexivity|]; cbn.
  all: first
    [ right; repeat split; eexists; reflexivity
    | left; repeat split;
      match goal with
      | H : negb (truthy ?v) = false |- truthy ?v = true =>
          destruct (truthy v); [reflexivity|discriminate H]
      end ].
Qed.

End UploadContracts.




(* ================================================================= *)
(** ** The two versions of reading the content hash *)

(** Whatever upload response the earlier version reads a hash off, the
    current version reads a hash off too: the places it looks at
    include [pin.cid], [cid] and [hash]. *)
Theorem hash_read_by_the_earlier_version_is_still_read :
  forall (result : json) (ipfsHash : jsval),
    Earlier.read_ipfsHash result = inr ipfsHash ->
    truthy ipfsHash = true ->
    exists newCid,
      read_newCid result = inr newCid /\ truthy newCid = true.
Proof.
  intros result ipfsHash Hread Htruthy.
  destruct result as [| | | | |members];
    try (cbn in Hread; injection Hread as <-; discriminate Htruthy);
    try discriminate Hread.
  unfold Earlier.read_ipfsHash, read_newCid, js_or, get_path_optional,
    get_property in *.
  destruct (truthy (lookup_member "IpfsHash" members)) eqn:H1;
    [eexists; split; [reflexivity|exact H1]|].
  destruct (truthy (lookup_member "cid" members)) eqn:H2;
    [eexists; split; [reflexivity|exact H2]|].
  destruct (truthy (lookup_member "hash" members)) eqn:H3;
    [eexists; split; [reflexivity|exact H3]|].
  destruct (get_optional (lookup_member "pin" members) "cid")
    as [e|v] eqn:Hpin; [discriminate Hread|].
  destruct (truthy v) eqn:H4.
  - eexists; split; [reflexivity|exact H4].
  - injection Hread as <-. rewrite H3 in Htruthy. discriminate.
Qed.

(* ================================================================= *)
(** ** Concrete runs for the further properties *)

(** ipfs.io answers 504 and Cloudflare carries the header. *)
Lemma resolution_is_decided_by_the_gateway_answers_witness :
  fst (resolveIPNSFromPublicKey (P := Script.platform) "k51demo"
         (Script.start
            (Script.calm
               [Script.plain_reply false 504 "" (inr JNull);
                Script.roots_reply " bafydemo"])))
  = Normal (mkIPNSResolveResult true (Some "bafydemo") (Some "k51demo") None).
Proof.
  exact (proj1 (resolution_is_decided_by_the_gateway_answers
                  (P := Script.platform) "k51demo"
                  (Script.start
                     (Script.calm
                        [Script.plain_reply false 504 "" (inr JNull);
                         Script.roots_reply " bafydemo"]))
                  _ _ _ _ eq_refl eq_refl)).
Defined.

Lemma blank_header_resolves_to_an_empty_hash_witness :
  fst (resolveIPNSFromPublicKey (P := Script.platform) "k51demo"
         (Script.start (Script.calm [Script.roots_reply "   "])))
  = Normal (mkIPNSResolveResult true (Some "") (Some "k51demo") None).
Proof.
  eapply (blank_header_resolves_to_an_empty_hash (P := Script.platform)
            "k51demo" (Script.start (Script.calm [Script.roots_reply "   "])));
    reflexivity.
Defined.

Lemma successful_publish_contents_witness :
  exists s' evs,
    updateIPNSRecord (P := Script.platform) "bafydemo" "e-demo-key"
      (Script.start (Script.calm []))
    = (Normal (mkIPNSUpdateResult true (Some "k51-demo-key") None), s')
    /\ trace s' = [] ++ evs
    /\ signed evs =
       [(mkPrivateKey (mkPublicKey Ed25519 (list_byte_of_string "-demo-key"))
                      (list_byte_of_string "-demo-key"),
         "bafydemo", 1700000000000, 31536000000, 60000000000)%Z].
Proof.
  destruct (successful_publish_contents (P := Script.platform)
              "bafydemo" "e-demo-key" (Script.start (Script.calm []))
              _ _ eq_refl eq_refl)
    as (h & b & keypair & cid & now & record & marshaled & logged &
        Hb & Hk & Ht & Hc & Hm & Hr & Htr & Hlog).
  do 2 eexists. split; [cbv; reflexivity|]. split; reflexivity.
Defined.

Lemma published_name_is_the_resolved_name_witness :
  exists name,
    upd_ipnsName
      (mkIPNSUpdateResult true (Some "k51-demo-key") None) = Some name
    /\ identity_of (P := Script.platform) (FromPrivateKey "e-demo-key")
       = Some name.
Proof.
  destruct (published_name_is_the_resolved_name (P := Script.platform)
              "bafydemo" "e-demo-key" (Script.start (Script.calm []))
              _ _ eq_refl eq_refl)
    as (name & Hname & Hid & _).
  exists name. split; assumption.
Defined.

(** A key with an unknown type tag. *)
Lemma undecodable_key_is_rejected_witness :
  exists s' evs,
    resolveIPNSFromPrivateKey (P := Script.platform) "x-demo-key"
      (Script.start (Script.calm [Script.roots_reply "bafydemo"]))
    = (Normal (mkIPNSResolveResult false None None
                 (Some "unknown key type")), s')
    /\ trace s' = [] ++ evs /\ requests evs = [].
Proof.
  exact (proj1 (undecodable_key_is_rejected (P := Script.platform)
                  "x-demo-key" "bafydemo"
                  (Script.start (Script.calm [Script.roots_reply "bafydemo"]))
                  (ErrorObj "unknown key type") eq_refl)).
Defined.

(** A routing that refuses the record. *)
Lemma refused_put_is_reported_witness :
  exists s' evs,
    updateIPNSRecord (P := Script.platform) "bafydemo" "e-demo-key"
      (Script.start (Script.mkWorld 1700000000000 1 [] true false 0))
    = (Normal (mkIPNSUpdateResult false None
                 (Some "routing rejected the record")), s')
    /\ trace s' = [] ++ evs
    /\ published evs =
       [("/"%byte :: list_byte_of_string "-demo-key",
         list_byte_of_string "bafydemo")]
    /\ last_call evs = Some (stop_ (O := Script.objects) 0%nat).
Proof.
  edestruct (refused_put_is_reported (P := Script.platform)
               "bafydemo" "e-demo-key"
               (Script.start (Script.mkWorld 1700000000000 1 [] true false 0)))
    as (s' & evs & Hrun & Htr & Hpub & Hlast).
  1-9: cbv; reflexivity.
  exists s', evs. exact (conj Hrun (conj Htr (conj Hpub Hlast))).
Defined.

Lemma missing_api_key_stops_every_call_witness :
  uploadConfigToIPFS (P := Script.platform) JNull "prod" (Some "")
    (Script.start (Script.calm []))
  = (Normal (mkUploadResult false None (Some api_key_required)),
     Script.start (Script.calm [])).
Proof.
  exact (proj1 (missing_api_key_stops_every_call (P := Script.platform)
                  (Some "") JNull "prod" "env-prod.json" None
                  (Script.start (Script.calm [])) eq_refl)).
Defined.

(** The listing names the file and every request is answered well. *)
Lemma upload_sends_listing_then_delete_then_post_witness :
  exists r s' evs,
    uploadConfigToIPFS (P := Script.platform) JNull "prod" (Some "api-key")
      (Script.start
         (Script.calm
            [Script.plain_reply true 200 ""
               (inr (JArray [JObject [("name", JString "env-prod.json");
                                      ("requestId", JString "req-1")]]));
             Script.plain_reply true 200 "" (inr JNull);
             Script.plain_reply true 200 ""
               (inr (JObject [("pin", JObject [("cid", JString "bafynew")])]))]))
    = (Normal r, s')
    /\ trace s' = [] ++ evs
    /\ (map req_method (requests evs) = ["GET"; "POST"]
        \/ map req_url (requests evs)
           = [ "https://api.quicknode.com/ipfs/rest/v1/pinning?pageNumber=1&perPage=10";
               "https://api.quicknode.com/ipfs/rest/v1/pinning/req-1";
               "https://api.quicknode.com/ipfs/rest/v1/s3/put-object" ]).
Proof.
  destruct (upload_sends_listing_then_delete_then_post (P := Script.platform)
              JNull "prod" "api-key"
              (Script.start
                 (Script.calm
                    [Script.plain_reply true 200 ""
                       (inr (JArray
                          [JObject [("name", JString "env-prod.json");
                                    ("requestId", JString "req-1")]]));
                     Script.plain_reply true 200 "" (inr JNull);
                     Script.plain_reply true 200 ""
                       (inr (JObject
                          [("pin", JObject [("cid", JString "bafynew")])]))]))
              _ _ eq_refl eq_refl)
    as (r & s' & evs & Hrun & Htr & Horder).
  exists r, s', evs. split; [exact Hrun|]. split; [exact Htr|].
  destruct Horder
    as [Hpost|(response & result & before & members & after & Hr & _ & Hjson
               & Hlist & _ & _ & Hdel)].
  - left. rewrite Hpost. reflexivity.
  - right. injection Hr as <-. cbn in Hjson. injection Hjson as <-.
    destruct Hlist as [Hlist|(members' & Hlist & _)]; [|discriminate].
    destruct before as [|entry [|]]; cbn in Hlist;
      injection Hlist; intros; subst; try discriminate;
      try (destruct before; discriminate).
    cbn in Hdel. rewrite Hdel. reflexivity.
Defined.

(** Nothing listed, the POST answered with an empty JSON object. *)
Lemma posted_content_without_hash_is_a_failure_witness :
  exists s',
    uploadConfigToIPFS (P := Script.platform) JNull "prod" (Some "api-key")
      (Script.start
         (Script.calm
            [Script.plain_reply true 200 "" (inr (JArray []));
             Script.plain_reply true 200 "" (inr (JObject []))]))
    = (Normal (mkUploadResult false None
                 (Some "No IPFS hash returned from QuickNode upload. Response: [object Object]")),
       s')
    /\ In (fetch_ (upload_request (P := Script.platform) "api-key" JNull "prod"))
          (trace s').
Proof.
  edestruct (posted_content_without_hash_is_a_failure (P := Script.platform)
               JNull "prod" "api-key"
               (Script.start
                  (Script.calm
                     [Script.plain_reply true 200 "" (inr (JArray []));
                      Script.plain_reply true 200 "" (inr (JObject []))])))
    as (s' & Hrun & Hin).
  1-8: cbv; reflexivity.
  exists s'. exact (conj Hrun Hin).
Defined.

Lemma lookup_returns_only_the_named_object_witness :
  name_is "env-prod.json"
    (JObject [("name", JString "env-prod.json");
              ("requestId", JString "req-1")]) = inr true.
Proof.
  refine (proj1 (proj1 (lookup_returns_only_the_named_object
                   (P := Script.platform) "env-prod.json" (Some "api-key")
                   (Script.start
                      (Script.calm
                         [Script.plain_reply true 200 ""
                            (inr (JArray
                               [JObject [("name", JString "env-dev.json")];
                                JObject [("name", JString "env-prod.json");
                                         ("requestId", JString "req-1")]]))]))
                   _ (mkFoundObject
                        (Some (JObject [("name", JString "env-prod.json");
                                        ("requestId", JString "req-1")]))
                        None)
                   eq_refl) _ eq_refl)).
Defined.

Lemma deletion_succeeds_iff_the_answer_is_ok_witness :
  exists deleted s',
    deletePinnedObject (P := Script.platform) (Some (JString "req-1"))
      (Some "api-key")
      (Script.start
         (Script.calm [Script.plain_reply false 404 "gone" (inr JNull)]))
    = (Normal deleted, s')
    /\ del_success deleted = false.
Proof.
  destruct (deletion_succeeds_iff_the_answer_is_ok (P := Script.platform)
              (Some (JString "req-1")) "api-key"
              (Script.start
                 (Script.calm
                    [Script.plain_reply false 404 "gone" (inr JNull)]))
              _ _ eq_refl eq_refl)
    as (deleted & Hrun & Hsucc & _).
  exists deleted. eexists. split; [exact Hrun|exact Hsucc].
Defined.

Lemma listing_reports_an_error_or_objects_witness :
  exists listed s',
    getAllPinnedObjects (P := Script.platform) (Some "api-key")
      (Script.start
         (Script.calm [Script.plain_reply false 401 "denied" (inr JNull)]))
    = (Normal listed, s')
    /\ objects listed = JArray [].
Proof.
  destruct (listing_reports_an_error_or_objects (P := Script.platform)
              "api-key"
              (Script.start
                 (Script.calm
                    [Script.plain_reply false 401 "denied" (inr JNull)]))
              _ _ eq_refl eq_refl)
    as (listed & Hrun & Herr & _).
  exists listed. eexists. split; [exact Hrun|].
  vm_compute in Hrun. injection Hrun as <-. reflexivity.
Defined.

Lemma earlier_upload_only_posts_witness :
  exists r s',
    Earlier.uploadConfigToIPFS (P := Script.platform) JNull "prod"
      (Some "api-key")
      (Script.start
         (Script.calm
            [Script.plain_reply true 200 ""
               (inr (JObject [("cid", JString "bafynew")]))]))
    = (Normal r, s')
    /\ map req_method (requests (trace s')) = ["POST"].
Proof.
  destruct (earlier_upload_only_posts (P := Script.platform)
              JNull "prod" "api-key"
              (Script.start
                 (Script.calm
                    [Script.plain_reply true 200 ""
                       (inr (JObject [("cid", JString "bafynew")]))]))
              _ _ eq_refl eq_refl)
    as (r & Hrun & _).
  exists r. eexists. split; [exact Hrun|]. reflexivity.
Defined.

Lemma hash_read_by_the_earlier_version_is_still_read_witness :
  exists newCid,
    read_newCid
      (JObject [("pin", JObject [("cid", JString "bafypin")]);
                ("cid", JString "bafytop")]) = inr newCid
    /\ truthy newCid = true.
Proof.
  exact (hash_read_by_the_earlier_version_is_still_read
           (JObject [("pin", JObject [("cid", JString "bafypin")]);
                     ("cid", JString "bafytop")])
           (Some (JString "bafypin")) eq_refl eq_refl).
Defined.

(* ================================================================= *)
(** ** A listing with a null entry *)

Section LookupEdge.

Context {O : Objects} {P : Platform O}.

Lemma array_find_by_name_null fileName before after :
  array_find_by_name fileName before = inr None ->
  exists e, array_find_by_name fileName (before ++ JNull :: after) = inl e.
Proof.
  induction before as [|item before IH]; simpl.
  - intros _. eexists. reflexivity.
  - destruct (name_is fileName item) as [e|[|]]; try discriminate.
    exact IH.
Qed.

(** A [null] entry in the listing ends the search: when no entry before
    it has the name, reading [name] off [null] throws, the lookup
    reports that as its error and returns no object, whatever entries
    follow, so an object of that name further down is not found. *)
Theorem null_entry_hides_the_objects_after_it :
  forall (fileName apiKey : string) (s : state O) (response : Response)
         (w1 : World O) (result : json) (before after : list json),
    truthy_string apiKey = true ->
    fetch_oracle (listing_request apiKey) (world s) = (inr response, w1) ->
    ok response = true ->
    body_json response = inr result ->
    js_or (get_property (Some result) "data") (inr (Some result))
      = inr (Some (JArray (before ++ JNull :: after))) ->
    array_find_by_name fileName before = inr None ->
    exists msg,
      fst (findPinnedObjectByName fileName (Some apiKey) s) =
      Normal (mkFoundObject None (Some msg)).
Proof.
  intros fileName apiKey [w tr] response w1 result before after
         Hkey Hfetch Hok Hjson Hdata Hbefore.
  destruct (array_find_by_name_null fileName before after Hbefore)
    as [e He].
  cbn [world] in Hfetch. unfold listing_request in Hfetch.
  cbv [findPinnedObjectByName getAllPinnedObjects bind try_catch settle
       ret of_sum fetch call_world world trace].
  rewrite (getQuickNodeApiKey_present _ Hkey). cbn [of_sum].
  rewrite Hfetch. cbn [of_sum]. rewrite Hok. cbn [negb].
  rewrite Hjson. cbn [of_sum]. rewrite Hdata. cbn.
  rewrite He. cbn. eexists. reflexivity.
Qed.

End LookupEdge.

Lemma null_entry_hides_the_objects_after_it_witness :
  exists msg,
    fst (findPinnedObjectByName (P := Script.platform) "env-prod.json"
           (Some "api-key")
           (Script.start
              (Script.calm
                 [Script.plain_reply true 200 ""
                    (inr (JArray
                       [JObject [("name", JString "env-dev.json")];
                        JNull;
                        JObject [("name", JString "env-prod.json");
                                 ("requestId", JString "req-1")]]))])))
    = Normal (mkFoundObject None (Some msg)).
Proof.
  eapply (null_entry_hides_the_objects_after_it (P := Script.platform)
            "env-prod.json" "api-key" _ _ _ _
            [JObject [("name", JString "env-dev.json")]]
            [JObject [("name", JString "env-prod.json");
                      ("requestId", JString "req-1")]]);
    reflexivity.
Defined.
